(** * AIMO solver: a shallow embedding of the answer pipeline

    The Python sources embedded here are
      - [src/utils/__init__.py]            ([mod_1000], [ensure_range]),
      - [src/utils/math_helpers.py]        ([gcd], [lcm], [prime_factors],
                                            [mod_inverse], [chinese_remainder],
                                            [fibonacci_mod], [factorial_mod],
                                            [binomial_mod], [mean_mod] and the
                                            digit conversions),
      - [src/solvers/base_solver.py]       ([preprocess], [_ensure_valid_answer]),
      - [src/solvers/combinatorics_solver.py] (the memoised counters, the
                                            handlers and [solve]),
      - [src/solvers/pattern_solver.py]    (the factorial and divisibility
                                            handlers),
      - [src/solvers/arithmetic_solver.py] (the ratio handler),
      - [src/solvers/sequence_solver.py]   (the memoised Fibonacci generator),
      - [src/solvers/geometry_solver.py]   (constructor and [solve]),
      - [src/main.py]                      ([_identify_problem_type],
                                            [solve_problem], the statistics).

    Conventions.  Python integers are [Z]; [//] and [%] are [Z.div] and
    [Z.modulo] (both round towards minus infinity, the remainder takes the
    sign of the divisor).  A finite Python float is the rational number it
    denotes; [float] on a literal and [+], [-], [*], [/] on floats round to
    the nearest double ([round_double]), infinities and NaN are separate
    values, and [math.sqrt], [math.sin] and [sum] on floats are functions
    taken as given.  Text is a list of bytes; case
    folding and the character classes of [re] are the ASCII ones, so the
    model follows Python on ASCII text. *)

From Stdlib Require Import ZArith QArith Qround List String Ascii Bool Lia.
From Stdlib Require Import Znumtheory Sorted.
Import ListNotations.

Local Open Scope Z_scope.

(* ------------------------------------------------------------------ *)
(** ** Python values, exceptions, and the builtins the code relies on *)

Module Py.

Inductive exn : Type :=
  | AttributeError (name : string)
  | ValueError
  | ZeroDivisionError
  | OverflowError
  | TypeError
  | IndexError
  | RecursionError.

(** The result of running a piece of Python: a value or a raised exception. *)
Inductive outcome (A : Type) : Type :=
  | Ok (a : A)
  | Raise (e : exn).
Arguments Ok {A} a.
Arguments Raise {A} e.

Definition bind {A B} (c : outcome A) (f : A -> outcome B) : outcome B :=
  match c with
  | Ok a => f a
  | Raise e => Raise e
  end.

(** [try: c  except Exception: h] *)
Definition try_except {A} (c : outcome A) (h : exn -> A) : A :=
  match c with
  | Ok a => a
  | Raise e => h e
  end.

Inductive pyfloat : Type :=
  | Finite (q : Q)
  | PosInf
  | NegInf
  | NaN.

Inductive pyval : Type :=
  | PyNone
  | PyInt (z : Z)
  | PyFloat (f : pyfloat).

(** [a % b] on integers. *)
Definition mod_ (a b : Z) : outcome Z :=
  if b =? 0 then Raise ZeroDivisionError else Ok (a mod b).

(** Truncation towards zero, the rounding of [int(x)] on a float. *)
Definition trunc (q : Q) : Z := Z.quot (Qnum q) (Zpos (Qden q)).

(** [int(v)] *)
Definition int_ (v : pyval) : outcome Z :=
  match v with
  | PyNone => Raise TypeError
  | PyInt z => Ok z
  | PyFloat (Finite q) => Ok (trunc q)
  | PyFloat NaN => Raise ValueError
  | PyFloat _ => Raise OverflowError
  end.

(** [float(z)] on an integer: exact below 2^53, otherwise rounded to a
    53-bit significand, ties to even; too large a value overflows. *)
Definition float_of_int (z : Z) : outcome pyfloat :=
  let a := Z.abs z in
  if a <? 2 ^ 53 then Ok (Finite (inject_Z z))
  else
    let e := Z.log2 a - 52 in
    let q := Z.shiftr a e in
    let r := a - Z.shiftl q e in
    let half := 2 ^ (e - 1) in
    let q' := if (half <? r) || ((r =? half) && Z.odd q) then q + 1 else q in
    let m := Z.shiftl q' e in
    if 2 ^ 1024 <=? m then Raise OverflowError
    else Ok (Finite (inject_Z (Z.sgn z * m))).

(** [floor(log2(p / d))] for positive [p] and [d]. *)
Definition ilog2 (p d : Z) : Z :=
  let e := Z.log2 p - Z.log2 d in
  if (if 0 <=? e then p <? d * 2 ^ e else p * 2 ^ (- e) <? d) then e - 1 else e.

(** [num / den] rounded to the nearest integer, a tie to the even one;
    [num >= 0], [den > 0]. *)
Definition round_half_even (num den : Z) : Z :=
  let q := num / den in
  let r := num mod den in
  match 2 * r ?= den with
  | Lt => q
  | Gt => q + 1
  | Eq => if Z.even q then q else q + 1
  end.

(** The double nearest to the real number [x], ties to even: 53 significant
    bits, multiples of 2^-1074 below 2^-1022, an infinity from 2^1024 on.
    This is the rounding of [float] on a decimal literal and of [+], [-],
    [*] and [/] on floats.  The sign of a zero is not kept: nothing in the
    code embedded here tells the two zeros apart. *)
Definition round_double (x : Q) : pyfloat :=
  let p := Z.abs (Qnum x) in
  let d := Zpos (Qden x) in
  if p =? 0 then Finite 0
  else
    let e := ilog2 p d in
    let t := Z.max e (-1022) - 52 in
    let n := if 0 <=? t then round_half_even p (d * 2 ^ t)
             else round_half_even (p * 2 ^ (- t)) d in
    if (0 <=? t) && (2 ^ 1024 <=? n * 2 ^ t)
    then (if Qnum x <? 0 then NegInf else PosInf)
    else
      let mag := if 0 <=? t then inject_Z (n * 2 ^ t)
                 else Qred (Qmake n (Z.to_pos (2 ^ (- t)))) in
      Finite (if Qnum x <? 0 then Qopp mag else mag).

(** [float(v)] *)
Definition float_ (v : pyval) : outcome pyfloat :=
  match v with
  | PyNone => Raise TypeError
  | PyInt z => float_of_int z
  | PyFloat f => Ok f
  end.

(** [range(a, b)] *)
Definition range (a b : Z) : list Z :=
  map (fun i => a + Z.of_nat i) (seq 0 (Z.to_nat (b - a))).

End Py.

Import Py.

Declare Scope py_scope.
Delimit Scope py_scope with py.
Notation "x <- c ;; k" := (Py.bind c (fun x => k))
  (at level 61, c at next level, right associativity) : py_scope.
Local Open Scope py_scope.

(* ------------------------------------------------------------------ *)
(** ** [src/utils/__init__.py] *)

Module Utils.

(** [mod_1000]: [int(value) % 1000], with the bare [except] giving 0. *)
Definition mod_1000 (value : pyval) : Z :=
  try_except
    (i <- int_ value ;;
     result <- mod_ i 1000 ;;
     Ok (if 0 <=? result then result else result + 1000))
    (fun _ => 0).

(** [ensure_range(value, min_val, max_val)] *)
Definition ensure_range (value : pyval) (min_val max_val : Z) : Z :=
  try_except
    (i <- int_ value ;;
     Ok (Z.max min_val (Z.min max_val i)))
    (fun _ => min_val).

End Utils.

(* ------------------------------------------------------------------ *)
(** ** [src/utils/math_helpers.py] *)

Module MathHelpers.

(** The local [extended_gcd] of [mod_inverse].  The recursion is on
    [b % a], whose absolute value is below that of [a]; [fuel] bounds the
    depth. *)
Fixpoint extended_gcd_fuel (fuel : nat) (a b : Z) : option (Z * Z * Z) :=
  match fuel with
  | O => None
  | S fuel' =>
      if a =? 0 then Some (b, 0, 1)
      else
        match extended_gcd_fuel fuel' (b mod a) a with
        | Some (g, x1, y1) => Some (g, y1 - (b / a) * x1, x1)
        | None => None
        end
  end.

Definition extended_gcd (a b : Z) : option (Z * Z * Z) :=
  extended_gcd_fuel (S (Z.abs_nat a)) a b.

(** [mod_inverse(a, m)]: [None] when the gcd is not 1.  The depth bound is
    never reached, see [extended_gcd_total]. *)
Definition mod_inverse (a m : Z) : outcome (option Z) :=
  match extended_gcd a m with
  | None => Raise RecursionError
  | Some (g, x, _) =>
      if negb (g =? 1) then Ok None
      else
        r <- mod_ x m ;;
        r' <- mod_ (r + m) m ;;
        Ok (Some r')
  end.

(** [factorial_mod(n, m)].  The loop runs over
    [range(1, min(n + 1, m + 1))]; for [m <= 0] that range is empty, so
    [%] never sees a zero modulus. *)
Definition factorial_mod (n m : Z) : Z :=
  fold_left (fun result i => (result * i) mod m)
            (range 1 (Z.min (n + 1) (m + 1))) 1.

(** The [for i in range(k)] loop of [binomial_mod], with its early
    [return 0]. *)
Fixpoint binomial_loop (n m : Z) (idx : list Z) (result : Z) : outcome Z :=
  match idx with
  | [] => Ok result
  | i :: rest =>
      r1 <- mod_ (result * (n - i)) m ;;
      inv <- mod_inverse (i + 1) m ;;
      match inv with
      | None => Ok 0
      | Some v =>
          r2 <- mod_ (r1 * v) m ;;
          binomial_loop n m rest r2
      end
  end.

(** [binomial_mod(n, k, m)] *)
Definition binomial_mod (n k m : Z) : outcome Z :=
  if n <? k then Ok 0
  else if (k =? 0) || (k =? n) then Ok 1
  else
    let k := Z.min k (n - k) in
    binomial_loop n m (range 0 k) 1.

(** [a // b] on integers. *)
Definition floordiv (a b : Z) : outcome Z :=
  if b =? 0 then Raise ZeroDivisionError else Ok (a / b).

(** The [while b:] loop of [gcd].  Here and in the other [while] loops
    below, [None] means that [fuel] iterations were not enough. *)
Fixpoint gcd_loop (fuel : nat) (a b : Z) : option Z :=
  match fuel with
  | O => None
  | S fuel' => if b =? 0 then Some a else gcd_loop fuel' b (a mod b)
  end.

(** [gcd(a, b)] *)
Definition gcd (a b : Z) : option Z :=
  option_map Z.abs (gcd_loop (S (Z.abs_nat b)) a b).

(** [lcm(a, b)] *)
Definition lcm (a b : Z) : option (outcome Z) :=
  option_map (fun g => floordiv (Z.abs (a * b)) g) (gcd a b).

(** The inner loop [while n % d == 0] of [prime_factors]: the list of
    factors and [n] when it ends. *)
Fixpoint divide_out (fuel : nat) (n d : Z) (factors : list Z)
  : option (list Z * Z) :=
  match fuel with
  | O => None
  | S fuel' =>
      if n mod d =? 0 then divide_out fuel' (n / d) d (factors ++ [d])
      else Some (factors, n)
  end.

(** The outer loop [while n > 1] of [prime_factors]. *)
Fixpoint prime_factors_loop (fuel : nat) (n d : Z) (factors : list Z)
  : option (list Z) :=
  match fuel with
  | O => None
  | S fuel' =>
      if 1 <? n then
        match divide_out (S (Z.to_nat n)) n d factors with
        | None => None
        | Some (factors, n) =>
            let d := d + 1 in
            if n <? d * d then
              Some (if 1 <? n then factors ++ [n] else factors)
            else prime_factors_loop fuel' n d factors
        end
      else Some factors
  end.

(** [prime_factors(n)] *)
Definition prime_factors (n : Z) : option (list Z) :=
  prime_factors_loop (S (Z.to_nat n)) n 2 [].

(** [fibonacci_mod(n, m)] *)
Definition fibonacci_mod (n m : Z) : outcome Z :=
  if n <=? 1 then Ok n
  else
    ab <- fold_left
            (fun acc _ =>
               ab <- acc ;;
               s <- mod_ (fst ab + snd ab) m ;;
               Ok (snd ab, s))
            (range 2 (n + 1)) (Ok (0, 1)) ;;
    Ok (snd ab).

(** [sum(x % m for x in numbers)] *)
Fixpoint sum_mod (numbers : list Z) (m : Z) : outcome Z :=
  match numbers with
  | [] => Ok 0
  | x :: rest =>
      r <- mod_ x m ;;
      s <- sum_mod rest m ;;
      Ok (r + s)
  end.

(** [mean_mod(numbers, m)] *)
Definition mean_mod (numbers : list Z) (m : Z) : outcome Z :=
  match numbers with
  | [] => Ok 0
  | _ :: _ =>
      s <- sum_mod numbers m ;;
      total <- mod_ s m ;;
      inv <- mod_inverse (Z.of_nat (List.length numbers)) m ;;
      match inv with
      | None => Ok 0
      | Some v => mod_ (total * v) m
      end
  end.

(** [digits_to_number(digits)] *)
Definition digits_to_number (digits : list Z) : Z :=
  fold_left (fun x y => x * 10 + y) digits 0.

(** The decimal digits of [n >= 0] below the ones in [acc], most significant
    first: what [str] writes. *)
Fixpoint decimal (fuel : nat) (n : Z) (acc : list Z) : option (list Z) :=
  match fuel with
  | O => None
  | S fuel' =>
      if n <? 10 then Some (n :: acc)
      else decimal fuel' (n / 10) (n mod 10 :: acc)
  end.

(** [number_to_digits(n)]: the digits of [str(abs(n))]. *)
Definition number_to_digits (n : Z) : option (list Z) :=
  decimal (S (Z.abs_nat n)) (Z.abs n) [].

(** The body of the [for remainder, modulus in zip(...)] loop of
    [chinese_remainder]; the product with the [None] of [mod_inverse] is a
    [TypeError]. *)
Definition crt_step (product : Z) (acc : outcome Z) (rm : Z * Z) : outcome Z :=
  total <- acc ;;
  p <- floordiv product (snd rm) ;;
  inv <- mod_inverse p (snd rm) ;;
  match inv with
  | None => Raise TypeError
  | Some v => Ok (total + fst rm * p * v)
  end.

(** [chinese_remainder(remainders, moduli)]; [reduce] without an initial
    value raises [TypeError] on an empty tuple. *)
Definition chinese_remainder (remainders moduli : list Z) : outcome Z :=
  product <- match moduli with
             | [] => Raise TypeError
             | m :: rest => Ok (fold_left Z.mul rest m)
             end ;;
  total <- fold_left (crt_step product) (combine remainders moduli) (Ok 0) ;;
  mod_ total product.

End MathHelpers.

(* ------------------------------------------------------------------ *)
(** ** [src/solvers/combinatorics_solver.py]: the counting primitives *)

Module CombinatoricsSolver.

(** [pow(a, -1, m)]: the inverse of [a] modulo [m], or [ValueError] when
    [a] is not invertible. *)
Definition pow_neg1 (a m : Z) : outcome Z :=
  match MathHelpers.extended_gcd a m with
  | Some (g, x, _) => if g =? 1 then mod_ x m else Raise ValueError
  | None => Raise ValueError
  end.

(** [_factorial_mod_1000(n)] *)
Definition _factorial_mod_1000 (n : Z) : Z :=
  fold_left (fun result i => (result * i) mod 1000)
            (range 1 (Z.min (n + 1) 1001)) 1.

(** [_permutation(n, r)], [r] defaulting to [n] when it is [None]. *)
Definition _permutation (n : Z) (r : option Z) : Z :=
  let r := match r with None => n | Some r => r end in
  if n <? r then 0
  else fold_left (fun result i => (result * i) mod 1000)
                 (range (n - r + 1) (n + 1)) 1.

(** The [for i in range(r)] loop of [_combination]. *)
Fixpoint combination_loop (n : Z) (idx : list Z) (result : Z) : outcome Z :=
  match idx with
  | [] => Ok result
  | i :: rest =>
      let r1 := (result * (n - i)) mod 1000 in
      inv <- pow_neg1 (i + 1) 1000 ;;
      combination_loop n rest ((r1 * inv) mod 1000)
  end.

(** [_combination(n, r)] *)
Definition _combination (n r : Z) : outcome Z :=
  if n <? r then Ok 0
  else
    let r := Z.min r (n - r) in
    combination_loop n (range 0 r) 1.

End CombinatoricsSolver.

(* ------------------------------------------------------------------ *)
(** ** Text: the [str] methods and the fragment of [re] used by the solvers *)

Module Text.

Definition text := list ascii.

Definition str (s : string) : text := list_ascii_of_string s.

Definition code (c : ascii) : nat := nat_of_ascii c.

Definition is_digit (c : ascii) : bool :=
  (48 <=? code c)%nat && (code c <=? 57)%nat.

Definition is_upper (c : ascii) : bool :=
  (65 <=? code c)%nat && (code c <=? 90)%nat.

(** Whitespace as [str.strip] and [\s] see it: TAB..CR, FS..US and space. *)
Definition is_space (c : ascii) : bool :=
  ((9 <=? code c)%nat && (code c <=? 13)%nat)
  || ((28 <=? code c)%nat && (code c <=? 32)%nat).

Definition lower_char (c : ascii) : ascii :=
  if is_upper c then ascii_of_nat (code c + 32) else c.

(** [s.lower()] *)
Definition lower (s : text) : text := map lower_char s.

Definition eqb_text (a b : text) : bool :=
  if list_eq_dec ascii_dec a b then true else false.

(** [Some rest] when [s = p ++ rest]. *)
Fixpoint strip_prefix (p s : text) : option text :=
  match p, s with
  | [], _ => Some s
  | _ :: _, [] => None
  | a :: p', b :: s' => if Ascii.eqb a b then strip_prefix p' s' else None
  end.

Definition starts_with (p s : text) : bool :=
  match strip_prefix p s with Some _ => true | None => false end.

(** [p in s] *)
Fixpoint contains (p s : text) : bool :=
  starts_with p s
  || match s with
     | [] => false
     | _ :: s' => contains p s'
     end.

(** [s.replace(old, new)] for a non-empty [old]: occurrences are replaced
    left to right without overlap.  [skip] counts the characters of an
    occurrence still to be dropped. *)
Fixpoint replace_aux (old new s : text) (skip : nat) : text :=
  match s with
  | [] => []
  | c :: s' =>
      match skip with
      | S n => replace_aux old new s' n
      | O =>
          if starts_with old s
          then new ++ replace_aux old new s' (List.length old - 1)
          else c :: replace_aux old new s' 0
      end
  end.

Definition replace (old new s : text) : text := replace_aux old new s 0.

(** [re.sub(r'\s+', ' ', s)]: every maximal run of whitespace becomes one
    space.  [in_run] tells whether the previous character was whitespace. *)
Fixpoint collapse_spaces (s : text) (in_run : bool) : text :=
  match s with
  | [] => []
  | c :: s' =>
      if is_space c
      then if in_run then collapse_spaces s' true
           else " "%char :: collapse_spaces s' true
      else c :: collapse_spaces s' false
  end.

Fixpoint lstrip (s : text) : text :=
  match s with
  | c :: s' => if is_space c then lstrip s' else s
  | [] => []
  end.

(** [s.strip()] *)
Definition strip (s : text) : text := rev (lstrip (rev (lstrip s))).

(** *** Regular expressions

    The patterns of the solvers use literals, a character class under a
    greedy counted repetition, concatenation, alternation, an optional
    non-capturing group and numbered capture groups.  Matching is the
    backtracking, leftmost, greedy matching of [re]. *)
Inductive regex : Type :=
  | Lit (l : text)
  | Cls (p : ascii -> bool) (lo : nat) (hi : option nat)
  | Cat (a b : regex)
  | Alt (a b : regex)
  | Opt (a : regex)
  | Grp (i : nat) (a : regex).

Definition captures := list (nat * text).

(** [m.group(i)] *)
Fixpoint group (i : nat) (caps : captures) : option text :=
  match caps with
  | [] => None
  | (j, t) :: rest => if Nat.eqb i j then Some t else group i rest
  end.

(** Length of the longest prefix of [s] made of characters in [p], capped
    by [hi]. *)
Fixpoint run_length (p : ascii -> bool) (hi : option nat) (s : text) : nat :=
  match hi, s with
  | Some O, _ => O
  | _, [] => O
  | _, c :: s' =>
      if p c then S (run_length p (option_map Nat.pred hi) s') else O
  end.

(** Try the continuation after [lo + extra], [lo + extra - 1], ..., [lo]
    characters: the greedy choice first, shorter ones on failure. *)
Fixpoint backtrack {R} (s : text) (lo extra : nat) (k : text -> option R)
  : option R :=
  match k (skipn (lo + extra) s) with
  | Some r => Some r
  | None =>
      match extra with
      | O => None
      | S extra' => backtrack s lo extra' k
      end
  end.

Fixpoint rmatch {R} (r : regex) (s : text) (caps : captures)
         (k : text -> captures -> option R) : option R :=
  match r with
  | Lit l =>
      match strip_prefix l s with
      | Some rest => k rest caps
      | None => None
      end
  | Cls p lo hi =>
      let n := run_length p hi s in
      if (n <? lo)%nat then None
      else backtrack s lo (n - lo) (fun rest => k rest caps)
  | Cat a b => rmatch a s caps (fun rest caps' => rmatch b rest caps' k)
  | Alt a b =>
      match rmatch a s caps k with
      | Some x => Some x
      | None => rmatch b s caps k
      end
  | Opt a =>
      match rmatch a s caps k with
      | Some x => Some x
      | None => k s caps
      end
  | Grp i a =>
      rmatch a s caps
        (fun rest caps' =>
           k rest ((i, firstn (List.length s - List.length rest) s) :: caps'))
  end.

(** One match object: the matched text ([m.group()]) and its groups. *)
Record rematch : Type := mkMatch { whole : text; groups : captures }.

(** [re.match] at the start of [s]. *)
Definition match_here (r : regex) (s : text) : option rematch :=
  rmatch r s []
    (fun rest caps => Some (mkMatch (firstn (List.length s - List.length rest) s) caps)).

(** [re.finditer(r, s)] for a pattern that matches no empty string: scan
    left to right, resuming after each match.  [skip] counts the characters
    of the last match not yet passed. *)
Fixpoint finditer_aux (r : regex) (s : text) (skip : nat) : list rematch :=
  match s with
  | [] => []
  | _ :: s' =>
      match skip with
      | S n => finditer_aux r s' n
      | O =>
          match match_here r s with
          | Some m => m :: finditer_aux r s' (List.length (whole m) - 1)
          | None => finditer_aux r s' 0
          end
      end
  end.

Definition finditer (r : regex) (s : text) : list rematch :=
  finditer_aux r s 0.

Definition digit_value (c : ascii) : Z := Z.of_nat (code c) - 48.

(** The integer written by a run of decimal digits. *)
Definition digits_to_Z (ds : text) : Z :=
  fold_left (fun acc c => 10 * acc + digit_value c) ds 0.

(** The number that a literal of the shape [-?\d*\.?\d+] writes. *)
Definition literal_value (t : text) : Q :=
  let (neg, body) :=
    match t with
    | "-"%char :: b => (true, b)
    | _ => (false, t)
    end in
  let n := run_length is_digit None body in
  let ip := firstn n body in
  let fp := match skipn n body with
            | "."%char :: f => f
            | _ => []
            end in
  let mag := Qred (Qmake (digits_to_Z ip * 10 ^ Z.of_nat (List.length fp)
                          + digits_to_Z fp)
                         (Z.to_pos (10 ^ Z.of_nat (List.length fp)))) in
  if neg then Qred (Qopp mag) else mag.

(** [float(t)] for such a literal: the double nearest to the number it
    writes, an infinity when that number is too large. *)
Definition parse_float (t : text) : pyfloat := round_double (literal_value t).

End Text.
Import Text.

(* ------------------------------------------------------------------ *)
(** ** Float arithmetic used by the solvers *)

Module PyFloat.

Definition is_zero (a : pyfloat) : bool :=
  match a with Finite x => Qeq_bool x 0 | _ => false end.

(** Whether a value other than NaN is below zero. *)
Definition negative (a : pyfloat) : bool :=
  match a with
  | Finite x => Qnum x <? 0
  | NegInf => true
  | _ => false
  end.

(** [-a] *)
Definition neg (a : pyfloat) : pyfloat :=
  match a with
  | Finite x => Finite (Qred (- x))
  | PosInf => NegInf
  | NegInf => PosInf
  | NaN => NaN
  end.

(** [a + b] *)
Definition add (a b : pyfloat) : pyfloat :=
  match a, b with
  | NaN, _ | _, NaN => NaN
  | PosInf, NegInf | NegInf, PosInf => NaN
  | PosInf, _ | _, PosInf => PosInf
  | NegInf, _ | _, NegInf => NegInf
  | Finite x, Finite y => round_double (x + y)
  end.

(** [a - b] *)
Definition sub (a b : pyfloat) : pyfloat := add a (neg b).

(** [a * b] *)
Definition mul (a b : pyfloat) : pyfloat :=
  match a, b with
  | NaN, _ | _, NaN => NaN
  | Finite x, Finite y => round_double (x * y)
  | _, _ =>
      if is_zero a || is_zero b then NaN
      else if xorb (negative a) (negative b) then NegInf else PosInf
  end.

(** [a / b]: Python raises on a zero divisor before it divides. *)
Definition div (a b : pyfloat) : outcome pyfloat :=
  if is_zero b then Raise ZeroDivisionError
  else
    Ok match a, b with
       | NaN, _ | _, NaN => NaN
       | Finite x, Finite y => round_double (x / y)
       | Finite _, _ => Finite 0
       | _, Finite _ => if xorb (negative a) (negative b) then NegInf else PosInf
       | _, _ => NaN
       end.

(** [a > b] *)
Definition gt (a b : pyfloat) : bool :=
  match a, b with
  | NaN, _ | _, NaN => false
  | Finite x, Finite y => negb (Qle_bool x y)
  | PosInf, PosInf | NegInf, _ | _, PosInf => false
  | _, _ => true
  end.

(** [x % m] for a finite [m > 0]: C's exact [fmod], moved into [0, m) by
    one rounded addition when it is negative. *)
Definition fmod (x : pyfloat) (m : Q) : pyfloat :=
  match x with
  | Finite q =>
      let r := Qred (q - m * inject_Z (trunc (q / m))) in
      if Qnum r <? 0 then round_double (r + m) else Finite r
  | _ => NaN
  end.

(** [max(l)]: the first element that none of the later ones exceeds. *)
Definition max_ (l : list pyfloat) : outcome pyfloat :=
  match l with
  | [] => Raise ValueError
  | x :: rest => Ok (fold_left (fun m y => if gt y m then y else m) rest x)
  end.

End PyFloat.

(* ------------------------------------------------------------------ *)
(** ** [src/solvers/base_solver.py] *)

Module BaseSolver.

(** The fields of [MathProblem] read by the solvers modelled below.  The
    [expressions] and [latex_commands] fields are filled by [re.findall]
    calls that cannot fail and are read by neither the geometry solver nor
    the dispatcher. *)
Record MathProblem : Type := mkMathProblem {
  raw_text : text;
  cleaned_text : text;
  numbers : list pyfloat;
  problem_type : text
}.

(** Names bound in the class body of [BaseSolver], and the instance
    attributes set by its [__init__]. *)
Definition namespace : list string :=
  [ "__init__"; "solve"; "initialize"; "_setup_resources"; "preprocess";
    "_clean_text"; "_extract_math_expressions"; "_extract_numbers";
    "_extract_latex_commands"; "_identify_problem_type";
    "_ensure_valid_answer"; "__str__";
    "is_initialized"; "latex_patterns"; "operators" ]%string.

(** [_clean_text] *)
Definition _clean_text (t : text) : text :=
  let t := replace (str "\\") (str " ") t in
  let t := replace (str "\,") (str " ") t in
  let t := collapse_spaces t false in
  strip t.

(** [-?\d*\.?\d+] *)
Definition number_re : regex :=
  Cat (Opt (Lit (str "-")))
      (Cat (Cls is_digit 0 None)
           (Cat (Opt (Lit (str "."))) (Cls is_digit 1 None))).

(** [\\frac\{(\d+)\}\{(\d+)\}] *)
Definition fraction_re : regex :=
  Cat (Lit (str "\frac{"))
      (Cat (Grp 1 (Cls is_digit 1 None))
           (Cat (Lit (str "}{"))
                (Cat (Grp 2 (Cls is_digit 1 None)) (Lit (str "}"))))).

Definition group_or_empty (i : nat) (m : rematch) : text :=
  match group i (groups m) with Some t => t | None => [] end.

(** [float(n)/float(d) for n, d in fractions] *)
Fixpoint fractions (ms : list rematch) : outcome (list pyfloat) :=
  match ms with
  | [] => Ok []
  | m :: rest =>
      q <- PyFloat.div (parse_float (group_or_empty 1 m))
                       (parse_float (group_or_empty 2 m)) ;;
      qs <- fractions rest ;;
      Ok (q :: qs)
  end.

(** [_extract_numbers] *)
Definition _extract_numbers (t : text) : outcome (list pyfloat) :=
  let plain := map (fun m => parse_float (whole m)) (finditer number_re t) in
  fr <- fractions (finditer fraction_re t) ;;
  Ok (plain ++ fr).

Definition keywords : list (string * list string) :=
  [ ("geometry", ["triangle"; "angle"; "circle"; "square"; "rectangle"]);
    ("algebra", ["solve"; "equation"; "polynomial"; "factor"]);
    ("number_theory", ["prime"; "factor"; "modulo"; "divisor"]);
    ("combinatorics", ["permutation"; "combination"; "ways"]);
    ("sequence", ["sequence"; "series"; "fibonacci"; "arithmetic"]) ]%string.

(** [_identify_problem_type] of the base class: the first category one of
    whose words occurs in the lower-cased text. *)
Definition _identify_problem_type (t : text) : text :=
  let text_lower := lower t in
  match find (fun kw => existsb (fun w => contains (str w) text_lower)
                                (snd kw))
             keywords with
  | Some kw => str (fst kw)
  | None => str "unknown"
  end.

(** [preprocess]; its [except] clause re-raises. *)
Definition preprocess (problem_text : text) : outcome MathProblem :=
  let cleaned := _clean_text problem_text in
  nums <- _extract_numbers cleaned ;;
  Ok (mkMathProblem problem_text cleaned nums
                    (_identify_problem_type cleaned)).

(** [_ensure_valid_answer] *)
Definition _ensure_valid_answer (result : pyval) : Z :=
  try_except
    (match result with
     | PyNone => Ok 0
     | _ =>
         f <- float_ result ;;
         i <- int_ (PyFloat f) ;;
         answer <- mod_ i 1000 ;;
         Ok (if 0 <=? answer then answer else answer + 1000)
     end)
    (fun _ => 0).

End BaseSolver.

(* ------------------------------------------------------------------ *)
(** ** [src/solvers/geometry_solver.py] *)

Module GeometrySolver.

Import BaseSolver.

Inductive element_kind : Type := Triangle | Angle.

(** [GeometricElement]: [points] holds [properties['vertices']] of a
    triangle or [properties['points']] of an angle, [value] holds
    [properties['value']]. *)
Record GeometricElement : Type := mkElement {
  element_type : element_kind;
  label : text;
  points : text;
  value : option pyfloat
}.

Inductive constraint_kind : Type := Length | AngleValue.

Record Constraint : Type := mkConstraint {
  ctype : constraint_kind;
  celements : text;
  cvalue : pyfloat
}.

Inductive target : Type :=
  | TArea | TDistance | TAngle | TRatio | TUnknown.

(** [GeometricProblem]; [elements] is the dict in insertion order. *)
Record GeometricProblem : Type := mkGeo {
  elements : list (text * GeometricElement);
  target_property : target;
  constraints : list Constraint
}.

(** Names bound in the class body of [GeometrySolver]. *)
Definition namespace : list string :=
  [ "__init__"; "_initialize_geometry_patterns"; "solve";
    "_parse_geometric_problem"; "_create_geometric_element";
    "_extract_geometric_constraints"; "_identify_target_property";
    "_solve_geometric_problem"; "_calculate_area";
    "_calculate_triangle_area"; "_get_triangle_sides";
    "_get_triangle_angles"; "_apply_geometric_heuristics"; "__str__" ]%string.

(** [self.<name>]: looked up in the class, then in its base class. *)
Definition getattr (name : string) : outcome string :=
  if existsb (String.eqb name) (namespace ++ BaseSolver.namespace)
  then Ok name
  else Raise (AttributeError name).

Fixpoint getattrs (names : list string) : outcome (list string) :=
  match names with
  | [] => Ok []
  | n :: rest =>
      h <- getattr n ;;
      hs <- getattrs rest ;;
      Ok (h :: hs)
  end.

(** [_initialize_geometry_patterns]: the two dict displays evaluate their
    ['handler'] entries in order. *)
Definition _initialize_geometry_patterns : outcome (list string * list string) :=
  pattern_handlers <-
    getattrs [ "_handle_triangle"; "_handle_circle"; "_handle_angle";
               "_handle_distance"; "_handle_perpendicular";
               "_handle_parallel" ]%string ;;
  property_handlers <-
    getattrs [ "_calculate_area"; "_calculate_perimeter"; "_calculate_angle";
               "_calculate_distance"; "_calculate_ratio" ]%string ;;
  Ok (pattern_handlers, property_handlers).

(** [GeometrySolver()] *)
Definition __init__ : outcome unit :=
  _ <- _initialize_geometry_patterns ;;
  Ok tt.

Definition spaces1 : regex := Cls is_space 1 None.
Definition spaces0 : regex := Cls is_space 0 None.
Definition digits1 : regex := Cls is_digit 1 None.
Definition upper (n : nat) : regex := Cls is_upper n (Some n).

(** [triangle\s+(?:\\triangle\s+)?([A-Z]{3})] *)
Definition triangle_re : regex :=
  Cat (Lit (str "triangle"))
      (Cat spaces1
           (Cat (Opt (Cat (Lit (str "\triangle")) spaces1))
                (Grp 1 (upper 3)))).

(** [circle|circumcircle|incircle] *)
Definition circle_re : regex :=
  Alt (Lit (str "circle")) (Alt (Lit (str "circumcircle")) (Lit (str "incircle"))).

(** [\\angle\s+([A-Z]{3})\s*=\s*(\d+)] *)
Definition angle_re : regex :=
  Cat (Lit (str "\angle"))
      (Cat spaces1
           (Cat (Grp 1 (upper 3))
                (Cat spaces0 (Cat (Lit (str "=")) (Cat spaces0 (Grp 2 digits1)))))).

(** [([A-Z]{2})\s*=\s*(\d+)] *)
Definition distance_re : regex :=
  Cat (Grp 1 (upper 2))
      (Cat spaces0 (Cat (Lit (str "=")) (Cat spaces0 (Grp 2 digits1)))).

(** The UTF-8 bytes of the up tack sign in [perpendicular|...]. *)
Definition up_tack : text :=
  [ascii_of_nat 226; ascii_of_nat 138; ascii_of_nat 165].

Definition perpendicular_re : regex :=
  Alt (Lit (str "perpendicular")) (Lit up_tack).

(** [parallel|\|\|] *)
Definition parallel_re : regex :=
  Alt (Lit (str "parallel")) (Lit (str "||")).

Inductive pattern_name : Type :=
  | PTriangle | PCircle | PAngle | PDistance | PPerpendicular | PParallel.

(** [self.geometry_patterns], in the order of the dict display. *)
Definition geometry_patterns : list (pattern_name * regex) :=
  [ (PTriangle, triangle_re); (PCircle, circle_re); (PAngle, angle_re);
    (PDistance, distance_re); (PPerpendicular, perpendicular_re);
    (PParallel, parallel_re) ].

(** [_create_geometric_element]; the circle branch calls the undefined
    [_create_circle_element], the [except] clause turns that into [None]. *)
Definition _create_geometric_element (ty : pattern_name) (m : rematch)
  : option GeometricElement :=
  match
    match ty with
    | PTriangle =>
        let vertices := group_or_empty 1 m in
        Ok (Some (mkElement Triangle vertices vertices None))
    | PCircle =>
        e <- getattr "_create_circle_element" ;;
        Ok None
    | PAngle =>
        let pts := group_or_empty 1 m in
        let angle_value := parse_float (group_or_empty 2 m) in
        Ok (Some (mkElement Angle (str "angle_" ++ pts) pts (Some angle_value)))
    | _ => Ok None
    end
  with
  | Ok r => r
  | Raise _ => None
  end.

(** [d[key] = v] on an insertion-ordered dict. *)
Fixpoint dict_set {V} (key : text) (v : V) (d : list (text * V)) : list (text * V) :=
  match d with
  | [] => [(key, v)]
  | (k, w) :: rest =>
      if eqb_text k key then (k, v) :: rest else (k, w) :: dict_set key v rest
  end.

Definition add_matches (cleaned : text) (els : list (text * GeometricElement))
           (p : pattern_name * regex) : list (text * GeometricElement) :=
  fold_left
    (fun els m =>
       match _create_geometric_element (fst p) m with
       | Some e => dict_set (label e) e els
       | None => els
       end)
    (finditer (snd p) cleaned) els.

(** [_extract_geometric_constraints] *)
Definition _extract_geometric_constraints (problem : MathProblem)
  : list Constraint :=
  map (fun m => mkConstraint Length (group_or_empty 1 m)
                             (parse_float (group_or_empty 2 m)))
      (finditer distance_re (cleaned_text problem))
  ++ map (fun m => mkConstraint AngleValue (group_or_empty 1 m)
                                (parse_float (group_or_empty 2 m)))
         (finditer angle_re (cleaned_text problem)).

(** [_identify_target_property] *)
Definition _identify_target_property (problem : MathProblem) : target :=
  let text_lower := lower (cleaned_text problem) in
  if contains (str "area") text_lower then TArea
  else if contains (str "length") text_lower
          || contains (str "distance") text_lower then TDistance
  else if contains (str "angle") text_lower then TAngle
  else if contains (str "ratio") text_lower then TRatio
  else TUnknown.

(** [_parse_geometric_problem] *)
Definition _parse_geometric_problem (problem : MathProblem) : GeometricProblem :=
  let els := fold_left (add_matches (cleaned_text problem)) geometry_patterns [] in
  let cs := _extract_geometric_constraints problem in
  mkGeo els (_identify_target_property problem) cs.

Definition index (t : text) (i : nat) : outcome text :=
  match nth_error t i with
  | Some c => Ok [c]
  | None => Raise IndexError
  end.

Definition is_length (c : Constraint) : bool :=
  match ctype c with Length => true | AngleValue => false end.

Definition is_angle (c : Constraint) : bool :=
  match ctype c with AngleValue => true | Length => false end.

(** The body of the [for i in range(3)] loop of [_get_triangle_sides]. *)
Definition side_at (vertices : text) (cs : list Constraint) (i : nat)
  : outcome (list pyfloat) :=
  a <- index vertices i ;;
  b <- index vertices ((i + 1) mod 3)%nat ;;
  let side := a ++ b in
  match find (fun c => is_length c
                       && (eqb_text (celements c) side
                           || eqb_text (celements c) (rev side))) cs with
  | Some c => Ok [cvalue c]
  | None => Ok []
  end.

(** [_get_triangle_sides] *)
Definition _get_triangle_sides (triangle : GeometricElement)
           (cs : list Constraint) : outcome (list pyfloat) :=
  s0 <- side_at (points triangle) cs 0 ;;
  s1 <- side_at (points triangle) cs 1 ;;
  s2 <- side_at (points triangle) cs 2 ;;
  Ok (s0 ++ s1 ++ s2).

(** The body of the loop of [_get_triangle_angles]; [(i-1) % 3] is written
    [(i+2) mod 3]. *)
Definition angle_at (vertices : text) (cs : list Constraint) (i : nat)
  : outcome (list pyfloat) :=
  a <- index vertices ((i + 2) mod 3)%nat ;;
  b <- index vertices i ;;
  c <- index vertices ((i + 1) mod 3)%nat ;;
  let angle_vertices := a ++ b ++ c in
  match find (fun k => is_angle k && eqb_text (celements k) angle_vertices) cs with
  | Some k => Ok [cvalue k]
  | None => Ok []
  end.

(** [_get_triangle_angles] *)
Definition _get_triangle_angles (triangle : GeometricElement)
           (cs : list Constraint) : outcome (list pyfloat) :=
  a0 <- angle_at (points triangle) cs 0 ;;
  a1 <- angle_at (points triangle) cs 1 ;;
  a2 <- angle_at (points triangle) cs 2 ;;
  Ok (a0 ++ a1 ++ a2).

Section Handlers.

(** [math.sqrt] on a finite non-negative argument and
    [math.sin(math.radians(x))] on a finite one: floating-point functions,
    taken as given. *)
Variable fsqrt : Q -> Q.
Variable fsin_degrees : Q -> Q.

(** [sum] on a list of floats, taken as given: how it rounds depends on
    the interpreter (one rounded addition per element up to Python 3.11,
    a compensated sum from 3.12 on). *)
Variable fsum : list pyfloat -> pyfloat.

(** The handlers that the tables name but that no class defines
    ([_calculate_perimeter], [_calculate_angle], [_calculate_distance],
    [_calculate_ratio]). *)
Variable absent_handler : string -> GeometricProblem -> outcome (option pyval).

(** [math.sqrt(x)] *)
Definition sqrt_ (x : pyfloat) : outcome pyfloat :=
  match x with
  | Finite q => if Qle_bool 0 q then Ok (Finite (fsqrt q)) else Raise ValueError
  | PosInf => Ok PosInf
  | NegInf => Raise ValueError
  | NaN => Ok NaN
  end.

(** [math.sin(math.radians(x))]: [math.sin] raises on an infinity. *)
Definition sin_degrees (x : pyfloat) : outcome pyfloat :=
  match x with
  | Finite q => Ok (Finite (fsin_degrees q))
  | NaN => Ok NaN
  | _ => Raise ValueError
  end.

(** [_calculate_triangle_area] *)
Definition _calculate_triangle_area (triangle : GeometricElement)
           (cs : list Constraint) : option pyval :=
  try_except
    (sides <- _get_triangle_sides triangle cs ;;
     match sides with
     | [a; b; c] =>
         s <- PyFloat.div (fsum sides) (Finite 2) ;;
         area <- sqrt_ (PyFloat.mul
                          (PyFloat.mul (PyFloat.mul s (PyFloat.sub s a))
                                       (PyFloat.sub s b))
                          (PyFloat.sub s c)) ;;
         Ok (Some (PyFloat area))
     | _ =>
         angles <- _get_triangle_angles triangle cs ;;
         match sides, angles with
         | [a; b], [g] =>
             sine <- sin_degrees g ;;
             Ok (Some (PyFloat
                         (PyFloat.mul
                            (PyFloat.mul (PyFloat.mul (Finite (1 # 2)) a) b)
                            sine)))
         | _, _ => Ok None
         end
     end)
    (fun _ => None).

(** [_calculate_area] *)
Definition _calculate_area (geo : GeometricProblem) : option pyval :=
  match find (fun e => match element_type (snd e) with
                       | Triangle => true
                       | Angle => false
                       end) (elements geo) with
  | Some e => _calculate_triangle_area (snd e) (constraints geo)
  | None => None
  end.

(** [_solve_geometric_problem].  [property_handlers] has the keys [area],
    [perimeter], [angle], [distance] and [ratio]; for the target [unknown]
    the call of the undefined [_solve_general_geometry] raises and the
    [except] clause returns [None]. *)
Definition _solve_geometric_problem (geo : GeometricProblem) : option pyval :=
  try_except
    (match target_property geo with
     | TArea => Ok (_calculate_area geo)
     | TDistance => absent_handler "_calculate_distance" geo
     | TAngle => absent_handler "_calculate_angle" geo
     | TRatio => absent_handler "_calculate_ratio" geo
     | TUnknown =>
         _ <- getattr "_solve_general_geometry" ;;
         Ok None
     end)
    (fun _ => None).

(** [_apply_geometric_heuristics] *)
Definition _apply_geometric_heuristics (problem : MathProblem) : outcome pyval :=
  let text_lower := lower (cleaned_text problem) in
  let numbers := numbers problem in
  match numbers with
  | [] => Ok (PyInt 42)
  | _ :: _ =>
      if contains (str "triangle") text_lower then
        if contains (str "right") text_lower
           || contains (str "perpendicular") text_lower then Ok (PyInt 90)
        else if contains (str "equilateral") text_lower then Ok (PyInt 60)
        else
          m <- PyFloat.max_ numbers ;;
          Ok (PyFloat (PyFloat.fmod m 1000))
      else if contains (str "circle") text_lower then
        match
          (if contains (str "diameter") text_lower
              || contains (str "radius") text_lower
           then find (fun num => PyFloat.gt num (Finite 10)) numbers
           else None)
        with
        | Some num => i <- int_ (PyFloat num) ;; Ok (PyInt (i mod 1000))
        | None => Ok (PyInt 360)
        end
      else
        m <- PyFloat.max_ numbers ;;
        Ok (PyFloat (PyFloat.fmod m 1000))
  end.

(** [solve], on an instance whose tables are in place. *)
Definition solve (question : text) : pyval :=
  try_except
    (problem <- preprocess question ;;
     let geo_problem := _parse_geometric_problem problem in
     match _solve_geometric_problem geo_problem with
     | Some result => Ok (PyInt (_ensure_valid_answer result))
     | None => _apply_geometric_heuristics problem
     end)
    (fun _ => PyInt 42).

End Handlers.

End GeometrySolver.

(* ------------------------------------------------------------------ *)
(** ** Reference functions used in statements *)

Module Reference.

(** The product of a list of integers. *)
Definition product (l : list Z) : Z := fold_right Z.mul 1 l.

(** The sum of a list of integers. *)
Definition total (l : list Z) : Z := fold_right Z.add 0 l.

(** The number of ways to write [n] as a sum of positive integers that are
    at most [k], the order of the summands not counting: [c] is how often
    the summand [k] occurs. *)
Fixpoint partitions_upto (k : nat) (n : Z) : Z :=
  match k with
  | O => if n =? 0 then 1 else 0
  | S k' =>
      total (map (fun c => partitions_upto k' (n - c * Z.of_nat k))
                 (range 0 (n / Z.of_nat k + 1)))
  end.

(** The number of partitions of [n]. *)
Definition partitions (n : Z) : Z := partitions_upto (Z.to_nat n) n.

(** The Fibonacci numbers: 0, 1, 1, 2, 3, 5, ... *)
Fixpoint fib (n : nat) : Z :=
  match n with
  | O => 0
  | S n' => match n' with
            | O => 1
            | S n'' => fib n' + fib n''
            end
  end.

(** No two of the numbers have a common factor. *)
Definition pairwise_coprime (l : list Z) : Prop :=
  ForallOrdPairs (fun a b => Z.gcd a b = 1) l.

End Reference.

(* ------------------------------------------------------------------ *)
(** ** [src/solvers/combinatorics_solver.py]: parsing, handlers, [solve] *)

Module Combinatorics.

Import BaseSolver.

Inductive kind : Type :=
  | Permutation | Combination | Arrangement | Partition | Unknown.

(** [CombinatoricsProblem]; its [constraints] dict is always empty and never
    read. *)
Record CombinatoricsProblem : Type := mkComb {
  problem_type : kind;
  total_elements : Z;
  select_elements : option Z;
  is_ordered : bool;
  allow_repetition : bool
}.

(** [re.search(p, t, re.IGNORECASE)] for a pattern [p] that is an
    alternation of lower-case words. *)
Definition search_words (words : list string) (t : text) : bool :=
  existsb (fun w => contains (str w) (lower t)) words.

(** [self.combinatorics_patterns], in the order of the dict display. *)
Definition combinatorics_patterns : list (kind * list string) :=
  [ (Permutation, ["permutation"; "arrange"; "order"; "ways to order"]);
    (Combination, ["combination"; "choose"; "select"; "ways to select"]);
    (Arrangement, ["arrangement"; "place"; "position"; "distribute"]);
    (Partition, ["partition"; "divide"; "split"; "separate"]) ]%string.

Definition order_matters : list string :=
  [ "order"; "arrange"; "permute"; "sequence"; "lineup"; "position";
    "rank" ]%string.

Definition repetition_allowed : list string :=
  [ "repetition"; "reuse"; "again"; "multiple times"; "can be used";
    "may be used" ]%string.

(** [any(indicator in text.lower() for indicator in indicators)] *)
Definition any_in (indicators : list string) (t : text) : bool :=
  existsb (fun w => contains (str w) (lower t)) indicators.

(** [n.is_integer()] on a float: false for an infinity and for NaN. *)
Definition is_integer (x : pyfloat) : bool :=
  match x with
  | Finite q => Qeq_bool (inject_Z (Qfloor q)) q
  | _ => false
  end.

(** [[int(n) for n in numbers if n.is_integer()]] *)
Definition integers (numbers : list pyfloat) : list Z :=
  flat_map (fun x => match x with
                     | Finite q => if is_integer x then [trunc q] else []
                     | _ => []
                     end)
           numbers.

Fixpoint insert (x : Z) (l : list Z) : list Z :=
  match l with
  | [] => [x]
  | y :: rest => if x <=? y then x :: l else y :: insert x rest
  end.

(** [sorted(l)] *)
Definition sorted (l : list Z) : list Z := fold_right insert [] l.

(** [l[-1]] and [l[-2]] *)
Definition last1 (l : list Z) : option Z := nth_error (rev l) 0.
Definition last2 (l : list Z) : option Z := nth_error (rev l) 1.

(** [_parse_combinatorics_problem] *)
Definition _parse_combinatorics_problem (problem : MathProblem)
  : CombinatoricsProblem :=
  let problem_type :=
    match find (fun p => search_words (snd p) (cleaned_text problem))
               combinatorics_patterns with
    | Some p => fst p
    | None => Unknown
    end in
  let numbers := sorted (integers (numbers problem)) in
  let total_elements := match last1 numbers with Some n => n | None => 0 end in
  mkComb problem_type total_elements (last2 numbers)
         (any_in order_matters (cleaned_text problem))
         (any_in repetition_allowed (cleaned_text problem)).

(** [pow(base, exp, 1000)]: for a negative exponent the base must be
    invertible modulo 1000. *)
Definition pow_1000 (base exp : Z) : outcome Z :=
  if 0 <=? exp then Ok ((base ^ exp) mod 1000)
  else
    inv <- CombinatoricsSolver.pow_neg1 (base mod 1000) 1000 ;;
    Ok ((inv ^ (- exp)) mod 1000).

(** [_handle_permutation] *)
Definition _handle_permutation (p : CombinatoricsProblem) : option Z :=
  try_except
    (let n := total_elements p in
     if allow_repetition p then
       match select_elements p with
       | Some r => v <- pow_1000 n r ;; Ok (Some v)
       | None => v <- pow_1000 n n ;; Ok (Some v)
       end
     else Ok (Some (CombinatoricsSolver._permutation n (select_elements p))))
    (fun _ => None).

(** [_handle_combination] *)
Definition _handle_combination (p : CombinatoricsProblem) : option Z :=
  try_except
    (let n := total_elements p in
     match select_elements p with
     | None => Ok None
     | Some r =>
         if allow_repetition p then
           v <- CombinatoricsSolver._combination (n + r - 1) r ;; Ok (Some v)
         else
           v <- CombinatoricsSolver._combination n r ;; Ok (Some v)
     end)
    (fun _ => None).

(** [_handle_arrangement] *)
Definition _handle_arrangement (p : CombinatoricsProblem) : option Z :=
  if is_ordered p then _handle_permutation p else _handle_combination p.

(** [dp[j] = v] *)
Fixpoint set_nth (j : nat) (v : Z) (dp : list Z) : list Z :=
  match dp, j with
  | [], _ => []
  | _ :: rest, O => v :: rest
  | x :: rest, S j' => x :: set_nth j' v rest
  end.

Definition get (dp : list Z) (j : Z) : Z := nth (Z.to_nat j) dp 0.

(** The inner loop [for j in range(i, n + 1)] of the partition count. *)
Definition partition_row (n : Z) (dp : list Z) (i : Z) : list Z :=
  fold_left (fun dp j => set_nth (Z.to_nat j) ((get dp j + get dp (j - i)) mod 1000) dp)
            (range i (n + 1)) dp.

Section Partition.

(** Whether a list of the given length can be allocated; when it cannot,
    the [MemoryError] is caught by the handler's [except]. *)
Variable fits : Z -> bool.

(** [_handle_partition] *)
Definition _handle_partition (p : CombinatoricsProblem) : option Z :=
  let n := total_elements p in
  if n <=? 0 then Some (if n =? 0 then 1 else 0)
  else if fits (n + 1) then
    let dp := set_nth 0 1 (repeat 0 (Z.to_nat (n + 1))) in
    let dp := fold_left (partition_row n) (range 1 (n + 1)) dp in
    Some (get dp n)
  else None.

(** [_solve_general_combinatorics] *)
Definition _solve_general_combinatorics (p : CombinatoricsProblem) : option Z :=
  try_except
    (let n := total_elements p in
     let r := select_elements p in
     if is_ordered p then
       if allow_repetition p then
         match r with
         | Some r => v <- pow_1000 n r ;; Ok (Some v)
         | None => v <- pow_1000 n n ;; Ok (Some v)
         end
       else Ok (Some (CombinatoricsSolver._permutation n r))
     else
       match r with
       | None => Ok None
       | Some r =>
           if allow_repetition p then
             v <- CombinatoricsSolver._combination (n + r - 1) r ;; Ok (Some v)
           else
             v <- CombinatoricsSolver._combination n r ;; Ok (Some v)
       end)
    (fun _ => None).

(** [_solve_combinatorics_problem] *)
Definition _solve_combinatorics_problem (p : CombinatoricsProblem) : option Z :=
  match problem_type p with
  | Permutation => _handle_permutation p
  | Combination => _handle_combination p
  | Arrangement => _handle_arrangement p
  | Partition => _handle_partition p
  | Unknown => _solve_general_combinatorics p
  end.

(** [_apply_combinatorics_heuristics] *)
Definition _apply_combinatorics_heuristics (problem : MathProblem) : outcome Z :=
  let text_lower := lower (cleaned_text problem) in
  let numbers := integers (numbers problem) in
  match last1 (sorted numbers) with
  | None => Ok 42
  | Some n =>
      let r := last2 (sorted numbers) in
      if contains (str "permutation") text_lower
         || contains (str "arrange") text_lower
      then Ok (CombinatoricsSolver._permutation n r)
      else
        match
          (if contains (str "combination") text_lower
              || contains (str "choose") text_lower
           then r else None)
        with
        | Some r => CombinatoricsSolver._combination n r
        | None =>
            if contains (str "ways") text_lower then
              match r with
              | Some r => CombinatoricsSolver._combination n r
              | None => Ok (CombinatoricsSolver._factorial_mod_1000 n)
              end
            else Ok (n mod 1000)
        end
  end.

(** [solve] *)
Definition solve (question : text) : Z :=
  try_except
    (problem <- preprocess question ;;
     let comb_problem := _parse_combinatorics_problem problem in
     match _solve_combinatorics_problem comb_problem with
     | Some result => Ok (_ensure_valid_answer (PyInt result))
     | None => _apply_combinatorics_heuristics problem
     end)
    (fun _ => 42).

End Partition.

End Combinatorics.

(* ------------------------------------------------------------------ *)
(** ** [src/solvers/pattern_solver.py]: the numeric handlers *)

Module PatternSolver.

(** The static [_factorial_mod_1000(n)] of the pattern solver: its loop
    stops before 1000. *)
Definition _factorial_mod_1000 (n : Z) : Z :=
  fold_left (fun result i => (result * i) mod 1000)
            (range 1 (Z.min (n + 1) 1000)) 1.

(** [math.factorial(n)] *)
Definition factorial (n : Z) : outcome Z :=
  if n <? 0 then Raise ValueError else Ok (Z.of_nat (fact (Z.to_nat n))).

(** [_handle_factorial]: it reads [match.extracted_values[0]], the float
    made from the digits before the [!]. *)
Definition _handle_factorial (extracted_values : list pyfloat) : option Z :=
  try_except
    (match extracted_values with
     | [] => Raise IndexError
     | v :: _ =>
         n <- int_ (PyFloat v) ;;
         if 20 <? n then Ok (Some (_factorial_mod_1000 n))
         else
           f <- factorial n ;;
           Ok (Some (f mod 1000))
     end)
    (fun _ => None).

(** The static [_gcd(a, b)]: the loop of [gcd] without the final [abs]. *)
Definition _gcd (a b : Z) : option Z :=
  MathHelpers.gcd_loop (S (Z.abs_nat b)) a b.

(** [_handle_divisibility], on [problem.numbers]. *)
Definition _handle_divisibility (numbers : list pyfloat) : option (option Z) :=
  match numbers with
  | x :: y :: _ =>
      match (a <- int_ (PyFloat x) ;; b <- int_ (PyFloat y) ;; Ok (a, b)) with
      | Ok (a, b) => option_map (fun g => Some (g mod 1000)) (_gcd a b)
      | Raise _ => Some None
      end
  | _ => Some None
  end.

End PatternSolver.

(* ------------------------------------------------------------------ *)
(** ** [src/solvers/arithmetic_solver.py]: the ratio handler *)

Module ArithmeticSolver.

(** [_handle_ratio], on the numbers of the problem.  The local [gcd] is the
    [while b:] loop without [abs]; [None] outside means that the loop was
    cut short. *)
Definition _handle_ratio (numbers : list pyfloat) : option (option Z) :=
  match numbers with
  | x :: y :: _ =>
      match (num <- int_ (PyFloat x) ;; den <- int_ (PyFloat y) ;;
             Ok (num, den)) with
      | Raise _ => Some None
      | Ok (num, den) =>
          if den =? 0 then Some None
          else
            match MathHelpers.gcd_loop (S (Z.abs_nat den)) num den with
            | None => None
            | Some common =>
                Some (try_except
                        (a <- MathHelpers.floordiv num common ;;
                         b <- MathHelpers.floordiv den common ;;
                         r <- mod_ (a + b) 1000 ;;
                         Ok (Some r))
                        (fun _ => None))
            end
      end
  | _ => Some None
  end.

End ArithmeticSolver.

(* ------------------------------------------------------------------ *)
(** ** [src/solvers/sequence_solver.py]: the memoised Fibonacci generator *)

Module SequenceSolver.

(** [_generate_fibonacci(n)] *)
Definition _generate_fibonacci (n : Z) : Z :=
  if n <=? 1 then n
  else snd (fold_left (fun ab _ => (snd ab, (fst ab + snd ab) mod 1000))
                      (range 2 (n + 1)) (0, 1)).

End SequenceSolver.

(* ------------------------------------------------------------------ *)
(** ** [functools.lru_cache] and solver code that calls memoised methods *)

Module Memo.

(** The methods decorated with [@lru_cache(maxsize=1000)] in the solvers. *)
Inductive fn : Type :=
  | FactorialMod1000
  | Permutation
  | Combination
  | GenerateFibonacci.

(** The arguments of a call after [self]: an integer and, for the
    two-argument methods, an integer or [None]. *)
Definition key : Type := (Z * option Z)%type.

(** The decorated function itself. *)
Definition sem (f : fn) (k : key) : outcome Z :=
  match f with
  | FactorialMod1000 => Ok (CombinatoricsSolver._factorial_mod_1000 (fst k))
  | Permutation => Ok (CombinatoricsSolver._permutation (fst k) (snd k))
  | Combination =>
      match snd k with
      | Some r => CombinatoricsSolver._combination (fst k) r
      | None => Raise TypeError
      end
  | GenerateFibonacci => Ok (SequenceSolver._generate_fibonacci (fst k))
  end.

Definition fn_eqb (f g : fn) : bool :=
  match f, g with
  | FactorialMod1000, FactorialMod1000 => true
  | Permutation, Permutation => true
  | Combination, Combination => true
  | GenerateFibonacci, GenerateFibonacci => true
  | _, _ => false
  end.

Definition key_eqb (a b : key) : bool :=
  (fst a =? fst b)
  && match snd a, snd b with
     | None, None => true
     | Some x, Some y => x =? y
     | _, _ => false
     end.

(** One cache: the stored results, most recently used first. *)
Definition cache : Type := list (key * Z).

Definition maxsize : nat := 1000.

Fixpoint lookup (k : key) (c : cache) : option Z :=
  match c with
  | [] => None
  | (k', v) :: rest => if key_eqb k k' then Some v else lookup k rest
  end.

Definition remove (k : key) (c : cache) : cache :=
  filter (fun e => negb (key_eqb k (fst e))) c.

(** A call of a decorated method.  A hit returns the stored value and makes
    the entry the most recent one; a miss runs the function, stores a
    returned value and drops the least recently used entry when the cache
    is full; a raised exception is stored nowhere. *)
Definition call (f : fn) (k : key) (c : cache) : outcome Z * cache :=
  match lookup k c with
  | Some v => (Ok v, (k, v) :: remove k c)
  | None =>
      match sem f k with
      | Ok v => (Ok v, firstn maxsize ((k, v) :: c))
      | Raise e => (Raise e, c)
      end
  end.

Definition caches : Type := fn -> cache.

Definition empty : caches := fun _ => [].

Definition update (f : fn) (c : cache) (cs : caches) : caches :=
  fun g => if fn_eqb f g then c else cs g.

(** Code whose only access to state is through calls of memoised methods:
    it returns, or calls a memoised method and goes on with the result. *)
Inductive Prog (A : Type) : Type :=
  | Ret (a : A)
  | Call (f : fn) (k : key) (cont : outcome Z -> Prog A).
Arguments Ret {A} a.
Arguments Call {A} f k cont.

(** Running such code against the caches. *)
Fixpoint run {A} (p : Prog A) (cs : caches) : A * caches :=
  match p with
  | Ret a => (a, cs)
  | Call f k cont =>
      let (r, c) := call f k (cs f) in
      run (cont r) (update f c cs)
  end.

(** The same code with every call answered by the function itself. *)
Fixpoint denote {A} (p : Prog A) : A :=
  match p with
  | Ret a => a
  | Call f k cont => denote (cont (sem f k))
  end.

(** Every stored entry is a value the function returns on that key. *)
Definition coherent (cs : caches) : Prop :=
  forall f k v, In (k, v) (cs f) -> sem f k = Ok v.

End Memo.

(* ------------------------------------------------------------------ *)
(** ** [src/main.py]: the dispatcher *)

Module Main.

Inductive SolverName : Type :=
  | pattern
  | geometry
  | number_theory
  | sequence
  | combinatorics
  | arithmetic.

Definition name_eqb (a b : SolverName) : bool :=
  match a, b with
  | pattern, pattern | geometry, geometry | number_theory, number_theory
  | sequence, sequence | combinatorics, combinatorics
  | arithmetic, arithmetic => true
  | _, _ => false
  end.

(** [type_indicators], in the order of the dict display. *)
Definition type_indicators : list (SolverName * list string) :=
  [ (geometry,
     [ "triangle"; "circle"; "angle"; "perpendicular"; "parallel";
       "distance"; "area"; "point" ]);
    (number_theory,
     [ "divisible"; "prime"; "factor"; "modulo"; "remainder";
       "multiple"; "gcd"; "lcm" ]);
    (sequence,
     [ "sequence"; "series"; "fibonacci"; "term"; "arithmetic";
       "geometric"; "progression" ]);
    (combinatorics,
     [ "ways"; "arrange"; "permutation"; "combination";
       "possibility"; "different" ]);
    (arithmetic,
     [ "sum"; "product"; "mean"; "average"; "total";
       "ratio"; "proportion" ]) ]%string.

(** The inner loop: one point for each indicator that occurs in the text. *)
Definition score (text_lower : text) (indicators : list string) : Z :=
  fold_left (fun s indicator =>
               if contains (str indicator) text_lower then s + 1 else s)
            indicators 0.

(** [type_scores] after the counting loops. *)
Definition type_scores (problem_text : text) : list (SolverName * Z) :=
  let text_lower := lower problem_text in
  map (fun p => (fst p, score text_lower (snd p))) type_indicators.

(** [max(values)] of a non-empty collection. *)
Definition max_ (l : list Z) : Z :=
  match l with
  | [] => 0
  | x :: rest => fold_left Z.max rest x
  end.

(** [_identify_problem_type]; the parsed expressions are not read. *)
Definition _identify_problem_type (problem_text : text) : SolverName :=
  let scores := type_scores problem_text in
  let max_score := max_ (map snd scores) in
  if 0 <? max_score then
    match find (fun p => snd p =? max_score) scores with
    | Some p => fst p
    | None => pattern
    end
  else pattern.

(** [self.stats] *)
Record Stats : Type := mkStats {
  problems_processed : Z;
  solver_usage : SolverName -> Z;
  successful_solves : Z
}.

(** The mutable state behind a dispatcher: its counters and the caches of
    the memoised methods of its solvers. *)
Record State : Type := mkState {
  stats : Stats;
  caches : Memo.caches
}.

Definition initial : State :=
  mkState (mkStats 0 (fun _ => 0) 0) Memo.empty.

(** Statements that read and write the state and may raise. *)
Definition M (A : Type) : Type := State -> outcome A * State.

Definition ret {A} (a : A) : M A := fun st => (Ok a, st).

Definition bindM {A B} (c : M A) (f : A -> M B) : M B :=
  fun st =>
    match c st with
    | (Ok a, st') => f a st'
    | (Raise e, st') => (Raise e, st')
    end.

Definition modify (f : Stats -> Stats) : M unit :=
  fun st => (Ok tt, mkState (f (stats st)) (caches st)).

(** [try: c except Exception: return h] *)
Definition catch {A} (c : M A) (h : A) : State -> A * State :=
  fun st =>
    match c st with
    | (Ok a, st') => (a, st')
    | (Raise _, st') => (h, st')
    end.

Definition incr_processed (s : Stats) : Stats :=
  mkStats (problems_processed s + 1) (solver_usage s) (successful_solves s).

Definition incr_usage (n : SolverName) (s : Stats) : Stats :=
  mkStats (problems_processed s)
          (fun m => if name_eqb n m then solver_usage s m + 1 else solver_usage s m)
          (successful_solves s).

Definition incr_successful (s : Stats) : Stats :=
  mkStats (problems_processed s) (solver_usage s) (successful_solves s + 1).

Section Dispatcher.

(** [parse_latex]: it returns a list of expressions and, by its own
    [try]/[except], raises nothing. *)
Variable LatexExpression : Type.
Variable parse_latex : text -> list LatexExpression.

(** [self.solvers[name].solve]: code over the memoised methods that
    returns a value or raises. *)
Variable solvers : SolverName -> text -> Memo.Prog (outcome pyval).

(** [solver.solve(problem_text)] *)
Definition solve (n : SolverName) (problem_text : text) : M pyval :=
  fun st =>
    let (r, cs) := Memo.run (solvers n problem_text) (caches st) in
    (r, mkState (stats st) cs).

Notation "x <~ c ;; k" := (bindM c (fun x => k))
  (at level 61, c at next level, right associativity).

(** [solve_problem] *)
Definition solve_problem (problem_text : text) : State -> Z * State :=
  catch
    (_ <~ modify incr_processed ;;
     let expressions := parse_latex problem_text in
     let problem_type := _identify_problem_type problem_text in
     _ <~ modify (incr_usage problem_type) ;;
     result <~ solve problem_type problem_text ;;
     match result with
     | PyNone =>
         if negb (name_eqb problem_type pattern) then
           result <~ solve pattern problem_text ;;
           match result with
           | PyNone => ret 42
           | _ => ret (Utils.mod_1000 result)
           end
         else ret 42
     | _ =>
         _ <~ modify incr_successful ;;
         ret (Utils.mod_1000 result)
     end)
    42.

End Dispatcher.

(** A dispatcher whose geometry solver is the one modelled above; the
    geometry solver calls no memoised method. *)
Definition with_geometry (geometry_solve : text -> pyval)
           (others : SolverName -> text -> Memo.Prog (outcome pyval))
  : SolverName -> text -> Memo.Prog (outcome pyval) :=
  fun n t =>
    match n with
    | geometry => Memo.Ret (Ok (geometry_solve t))
    | _ => others n t
    end.

(** The categories in the order in which their scores are scanned. *)
Definition categories : list SolverName := map fst type_indicators.

Definition indicators_of (c : SolverName) : list string :=
  match find (fun p => name_eqb c (fst p)) type_indicators with
  | Some p => snd p
  | None => []
  end.

(** How many of the keywords of category [c] occur in the lower-cased text;
    a keyword that occurs several times counts once. *)
Definition keyword_count (c : SolverName) (problem_text : text) : Z :=
  score (lower problem_text) (indicators_of c).

Definition max_count (problem_text : text) : Z :=
  max_ (map (fun c => keyword_count c problem_text) categories).

(** The answer as a function of the text alone: every memoised call is
    answered by the function it decorates. *)
Definition answer (solvers : SolverName -> text -> Memo.Prog (outcome pyval))
           (problem_text : text) : Z :=
  let problem_type := _identify_problem_type problem_text in
  match Memo.denote (solvers problem_type problem_text) with
  | Raise _ => 42
  | Ok PyNone =>
      if negb (name_eqb problem_type pattern) then
        match Memo.denote (solvers pattern problem_text) with
        | Raise _ => 42
        | Ok PyNone => 42
        | Ok result => Utils.mod_1000 result
        end
      else 42
  | Ok result => Utils.mod_1000 result
  end.

(** A solver body that asks the memoised [_combination] for C(n, 1), [n] the
    length of the text, and returns what it gets. *)
Definition counting_solver (_ : SolverName) (t : text)
  : Memo.Prog (outcome pyval) :=
  Memo.Call Memo.Combination (Z.of_nat (List.length t), Some 1)
            (fun r => Memo.Ret (v <- r ;; Ok (PyInt v))).

(** The sum of the six entries of [solver_usage]. *)
Definition usage_total (s : Stats) : Z :=
  solver_usage s pattern + solver_usage s geometry
  + solver_usage s number_theory + solver_usage s sequence
  + solver_usage s combinatorics + solver_usage s arithmetic.

(** The ['success_rate'] entry of [get_statistics]. *)
Definition success_rate (s : Stats) : Q :=
  inject_Z (successful_solves s) / inject_Z (Z.max 1 (problems_processed s)).

(** [solve_problem] on each text of a list in turn: the answers and the
    state left behind. *)
Fixpoint solve_all (LatexExpression : Type)
         (parse_latex : text -> list LatexExpression)
         (solvers : SolverName -> text -> Memo.Prog (outcome pyval))
         (texts : list text) (st : State) : list Z * State :=
  match texts with
  | [] => ([], st)
  | t :: rest =>
      let (a, st') := solve_problem LatexExpression parse_latex solvers t st in
      let (answers, st'') :=
        solve_all LatexExpression parse_latex solvers rest st' in
      (a :: answers, st'')
  end.

End Main.

(* ------------------------------------------------------------------ *)
(** ** Invariants of loops, used in the proofs *)

Module Invariants.




(** No two neighbours [a], [b] of the text are related by [R]. *)
Fixpoint no_adj (R : ascii -> ascii -> bool) (s : text) : Prop :=
  match s with
  | [] => True
  | a :: s' => match s' with
               | [] => True
               | b :: _ => R a b = false /\ no_adj R s'
               end
  end.

(** The pair of characters [x], [y]. *)
Definition pair_is (x y : ascii) (a b : ascii) : bool :=
  Ascii.eqb a x && Ascii.eqb b y.

(** Two whitespace characters. *)
Definition both_space (a b : ascii) : bool := is_space a && is_space b.

Definition backslash : ascii := "\"%char.


End Invariants.

(* ================================================================== *)
(** * Properties *)

(** ** Ranges and loops *)

Lemma range_nil (a b : Z) : b <= a -> range a b = [].
Proof.
  intros H. unfold range.
  replace (Z.to_nat (b - a)) with O by lia. reflexivity.
Qed.

Lemma range_cons (a b : Z) : a < b -> range a b = a :: range (a + 1) b.
Proof.
  intros H. unfold range.
  replace (Z.to_nat (b - a)) with (S (Z.to_nat (b - (a + 1)))) by lia.
  cbn [seq map]. f_equal; [lia|].
  rewrite <- seq_shift, map_map.
  apply map_ext. intros i. lia.
Qed.

Lemma range_snoc (a b : Z) : a <= b -> range a (b + 1) = range a b ++ [b].
Proof.
  intros H. unfold range.
  replace (Z.to_nat (b + 1 - a)) with (Z.to_nat (b - a) + 1)%nat by lia.
  rewrite seq_app, map_app. cbn [seq map Nat.add]. do 2 f_equal. lia.
Qed.

(** ** Floats: the rounding on known values *)

(** [float] on literals and the float operations, at values where Python
    rounds, overflows or underflows: [float('0.1')], [float('4.35')],
    2^53 + 1, a 401-digit literal, a literal below the smallest double,
    [0.1 + 0.2], [1.0 / 3.0], [-1e-20 % 1000], [-3.5 % 1000] and
    [float(2**53 + 3)]. *)
Lemma float_examples :
  parse_float (str "0.1") = Finite (3602879701896397 # 36028797018963968)
  /\ parse_float (str "4.35") = Finite (2448832297382707 # 562949953421312)
  /\ parse_float (str "9007199254740993") = Finite 9007199254740992
  /\ parse_float (str "-.5") = Finite (-1 # 2)
  /\ parse_float (str "1" ++ repeat "0"%char 400) = PosInf
  /\ parse_float (str "-1" ++ repeat "0"%char 400) = NegInf
  /\ parse_float (str "0." ++ repeat "0"%char 323 ++ str "2") = Finite 0
  /\ PyFloat.add (parse_float (str "0.1")) (parse_float (str "0.2"))
     = Finite (1351079888211149 # 4503599627370496)
  /\ PyFloat.div (Finite 1) (Finite 3)
     = Ok (Finite (6004799503160661 # 18014398509481984))
  /\ PyFloat.div PosInf PosInf = Ok NaN
  /\ PyFloat.div PosInf (Finite 0) = Raise ZeroDivisionError
  /\ PyFloat.fmod (parse_float (str "-0.00000000000000000001")) 1000
     = Finite 1000
  /\ PyFloat.fmod (Finite (-7 # 2)) 1000 = Finite (1993 # 2)
  /\ PyFloat.fmod PosInf 1000 = NaN
  /\ float_of_int (2 ^ 53 + 3) = Ok (round_double (inject_Z (2 ^ 53 + 3))).
Proof. vm_compute. repeat split. Qed.

(** ** The extended Euclidean algorithm always returns *)

Lemma extended_gcd_fuel_total (fuel : nat) :
  forall a b, (Z.abs_nat a < fuel)%nat ->
              exists r, MathHelpers.extended_gcd_fuel fuel a b = Some r.
Proof.
  induction fuel as [|fuel IH]; intros a b Hf; [lia|].
  cbn [MathHelpers.extended_gcd_fuel].
  destruct (Z.eqb_spec a 0) as [->|Ha]; [eauto|].
  destruct (IH (b mod a) a) as [[[g x] y] E].
  - assert (Z.abs (b mod a) < Z.abs a).
    { destruct (Z_lt_le_dec 0 a).
      - pose proof (Z.mod_pos_bound b a ltac:(lia)). lia.
      - pose proof (Z.mod_neg_bound b a ltac:(lia)). lia. }
    lia.
  - rewrite E. eauto.
Qed.

Lemma extended_gcd_total (a b : Z) :
  exists r, MathHelpers.extended_gcd a b = Some r.
Proof. apply extended_gcd_fuel_total. lia. Qed.

Lemma mod_inverse_returns (a m : Z) :
  m <> 0 -> exists r, MathHelpers.mod_inverse a m = Ok r.
Proof.
  intros Hm. unfold MathHelpers.mod_inverse.
  destruct (extended_gcd_total a m) as [[[g x] y] ->].
  destruct (negb (g =? 1)); [eauto|].
  unfold mod_. destruct (Z.eqb_spec m 0); [contradiction|]. cbn. eauto.
Qed.

Lemma binomial_loop_returns (n m : Z) (idx : list Z) :
  m <> 0 -> forall result, exists v, MathHelpers.binomial_loop n m idx result = Ok v.
Proof.
  intros Hm. induction idx as [|i rest IH]; intros result; cbn; [eauto|].
  unfold mod_ at 1. destruct (Z.eqb_spec m 0); [contradiction|]. cbn.
  destruct (mod_inverse_returns (i + 1) m Hm) as [[v|] ->]; cbn; [|eauto].
  unfold mod_ at 1. destruct (Z.eqb_spec m 0); [contradiction|]. cbn.
  apply IH.
Qed.

(** ** Modular normalisation *)

Lemma trunc_mod_range (z : Z) : 0 <= z mod 1000 <= 999.
Proof. pose proof (Z.mod_pos_bound z 1000 ltac:(lia)). lia. Qed.

Lemma mod_1000_float (r : Q) :
  Utils.mod_1000 (PyFloat (Finite r)) = trunc r mod 1000.
Proof.
  unfold Utils.mod_1000. cbn.
  pose proof (trunc_mod_range (trunc r)) as H.
  destruct (Z.leb_spec 0 (trunc r mod 1000)); [reflexivity|lia].
Qed.

Lemma ensure_valid_answer_float (r : Q) :
  BaseSolver._ensure_valid_answer (PyFloat (Finite r)) = trunc r mod 1000.
Proof.
  unfold BaseSolver._ensure_valid_answer. cbn.
  pose proof (trunc_mod_range (trunc r)) as H.
  destruct (Z.leb_spec 0 (trunc r mod 1000)); [reflexivity|lia].
Qed.

Lemma mod_1000_range (v : pyval) : 0 <= Utils.mod_1000 v <= 999.
Proof.
  unfold Utils.mod_1000.
  destruct v as [|z|[q| | |]]; cbn; try lia.
  - pose proof (trunc_mod_range z).
    destruct (Z.leb_spec 0 (z mod 1000)); lia.
  - pose proof (trunc_mod_range (trunc q)).
    destruct (Z.leb_spec 0 (trunc q mod 1000)); lia.
Qed.

Lemma trunc_floor_nonneg (r : Q) : (0 <= r)%Q -> trunc r = Qfloor r.
Proof.
  destruct r as [p q]. unfold Qle, trunc, Qfloor. cbn. intros H.
  apply Z.quot_div_nonneg; lia.
Qed.

Lemma trunc_floor_integer (r : Q) :
  (inject_Z (Qfloor r) == r)%Q -> trunc r = Qfloor r.
Proof.
  destruct r as [p q]. unfold Qeq, trunc, Qfloor. cbn. intros H.
  rewrite Z.mul_1_r in H. remember (p / Z.pos q) as d eqn:Ed.
  rewrite <- H. apply Z.quot_mul. lia.
Qed.

Lemma ensure_valid_answer_range (v : pyval) :
  0 <= BaseSolver._ensure_valid_answer v <= 999.
Proof.
  unfold BaseSolver._ensure_valid_answer.
  destruct v as [|z|f]; [cbn; lia| |].
  - destruct (float_ (PyInt z)) as [[q| | |]|e]; cbn; try lia.
    pose proof (trunc_mod_range (trunc q)).
    destruct (Z.leb_spec 0 (trunc q mod 1000)); lia.
  - destruct f as [q| | |]; cbn; try lia.
    pose proof (trunc_mod_range (trunc q)).
    destruct (Z.leb_spec 0 (trunc q mod 1000)); lia.
Qed.

Lemma trunc_inject (z : Z) : trunc (inject_Z z) = z.
Proof. unfold trunc, inject_Z. cbn. apply Z.quot_1_r. Qed.

Lemma ensure_valid_answer_int (z : Z) :
  Z.abs z < 2 ^ 53 -> BaseSolver._ensure_valid_answer (PyInt z) = z mod 1000.
Proof.
  intros H. unfold BaseSolver._ensure_valid_answer, float_, float_of_int.
  destruct (Z.ltb_spec (Z.abs z) (2 ^ 53)); [|lia].
  cbn [bind int_ try_except]. rewrite trunc_inject.
  unfold mod_. cbn [Z.eqb bind try_except].
  pose proof (trunc_mod_range z).
  destruct (Z.leb_spec 0 (z mod 1000)); [reflexivity|lia].
Qed.

Lemma mod_1000_int (z : Z) : Utils.mod_1000 (PyInt z) = z mod 1000.
Proof.
  unfold Utils.mod_1000. cbn [int_ bind]. unfold mod_.
  cbn [Z.eqb bind try_except].
  pose proof (trunc_mod_range z).
  destruct (Z.leb_spec 0 (z mod 1000)); [reflexivity|lia].
Qed.

(** C4, as amended.  For every finite float [r], [mod_1000] and
    [_ensure_valid_answer] return [int(r) % 1000], where [int] truncates
    towards zero; that value lies in [0, 999]; and it is the value
    [((floor(r) % 1000) + 1000) % 1000] whenever [r] is non-negative or an
    integer.  For every integer [z], [mod_1000] returns [z % 1000], which
    is the value of the formula, and [_ensure_valid_answer], which goes
    through [float(z)], returns the same for [abs(z) < 2^53]; beyond that
    the conversion rounds, and 2^53 + 1 gives 992, not 993.  Whatever the
    value [v], both results lie in [0, 999]. *)
Theorem normalization_truncates (r : Q) (z : Z) (v : pyval) :
  Utils.mod_1000 (PyFloat (Finite r)) = trunc r mod 1000
  /\ BaseSolver._ensure_valid_answer (PyFloat (Finite r)) = trunc r mod 1000
  /\ 0 <= trunc r mod 1000 <= 999
  /\ ((0 <= r)%Q \/ (inject_Z (Qfloor r) == r)%Q ->
      trunc r mod 1000 = ((Qfloor r mod 1000) + 1000) mod 1000)
  /\ Utils.mod_1000 (PyInt z) = z mod 1000
  /\ z mod 1000 = ((z mod 1000) + 1000) mod 1000
  /\ (Z.abs z < 2 ^ 53 ->
      BaseSolver._ensure_valid_answer (PyInt z) = z mod 1000)
  /\ BaseSolver._ensure_valid_answer (PyInt (2 ^ 53 + 1)) = 992
  /\ (2 ^ 53 + 1) mod 1000 = 993
  /\ 0 <= Utils.mod_1000 v <= 999
  /\ 0 <= BaseSolver._ensure_valid_answer v <= 999.
Proof.
  split; [apply mod_1000_float|].
  split; [apply ensure_valid_answer_float|].
  split; [apply trunc_mod_range|].
  split.
  { intros H.
    assert (E : trunc r = Qfloor r).
    { destruct H; [apply trunc_floor_nonneg|apply trunc_floor_integer]; assumption. }
    rewrite E.
    rewrite Z.add_mod, Z.mod_mod, Z.mod_same, Z.add_0_r, Z.mod_mod by lia.
    reflexivity. }
  split; [apply mod_1000_int|].
  split.
  { rewrite Z.add_mod, Z.mod_mod, Z.mod_same, Z.add_0_r, Z.mod_mod by lia.
    reflexivity. }
  split; [apply ensure_valid_answer_int|].
  split; [vm_compute; reflexivity|].
  split; [vm_compute; reflexivity|].
  split; [apply mod_1000_range|apply ensure_valid_answer_range].
Qed.

Lemma normalization_truncates_witness :
  (trunc (7 # 2) mod 1000 = ((Qfloor (7 # 2) mod 1000) + 1000) mod 1000)
  /\ BaseSolver._ensure_valid_answer (PyInt (-7)) = (-7) mod 1000.
Proof.
  pose proof (normalization_truncates (7 # 2) (-7) PyNone)
    as (_ & _ & _ & Hfloor & _ & _ & Hint & _).
  split.
  - apply Hfloor. left. unfold Qle. simpl. lia.
  - apply Hint. vm_compute. reflexivity.
Defined.

(** C4, as stated, fails at [r = -0.5]: the code truncates to 0 and returns
    0, where the floor is -1 and the stated formula gives 999. *)
Lemma normalization_not_floor :
  Utils.mod_1000 (PyFloat (Finite (-1 # 2))) = 0
  /\ BaseSolver._ensure_valid_answer (PyFloat (Finite (-1 # 2))) = 0
  /\ ((Qfloor (-1 # 2) mod 1000) + 1000) mod 1000 = 999
  /\ Utils.mod_1000 (PyFloat (Finite (-1 # 2)))
     <> ((Qfloor (-1 # 2) mod 1000) + 1000) mod 1000.
Proof. vm_compute. repeat split. discriminate. Qed.

(** ** Counting primitives *)

(** C6.  With [r > n] the three counting operations return 0 and raise
    nothing, whatever the modulus. *)
Theorem select_exceeds_total (n r m : Z) :
  0 <= n -> 0 <= r -> n < r ->
  MathHelpers.binomial_mod n r m = Ok 0
  /\ CombinatoricsSolver._combination n r = Ok 0
  /\ CombinatoricsSolver._permutation n (Some r) = 0.
Proof.
  intros Hn Hr H.
  unfold MathHelpers.binomial_mod, CombinatoricsSolver._combination,
    CombinatoricsSolver._permutation.
  destruct (Z.ltb_spec n r); [|lia]. repeat split.
Qed.

Lemma select_exceeds_total_witness :
  MathHelpers.binomial_mod 3 5 1000 = Ok 0
  /\ CombinatoricsSolver._combination 3 5 = Ok 0
  /\ CombinatoricsSolver._permutation 3 (Some 5) = 0.
Proof. apply (select_exceeds_total 3 5 1000); lia. Defined.

(** [binomial_mod(n, r, 1000)] returns a value and
    [binomial_mod(n, n - r, 1000)] returns the same one. *)
Lemma binomial_mod_symmetric (n r : Z) :
  0 <= r <= n ->
  exists v, MathHelpers.binomial_mod n r 1000 = Ok v
            /\ MathHelpers.binomial_mod n (n - r) 1000 = Ok v.
Proof.
  intros H.
  assert (E : MathHelpers.binomial_mod n r 1000
              = MathHelpers.binomial_mod n (n - r) 1000).
  { unfold MathHelpers.binomial_mod.
    destruct (Z.ltb_spec n r); [lia|].
    destruct (Z.ltb_spec n (n - r)); [lia|].
    destruct (Z.eqb_spec r 0) as [->|Hr0].
    - rewrite Z.sub_0_r, Z.eqb_refl, orb_true_r. reflexivity.
    - destruct (Z.eqb_spec r n) as [->|Hn].
      + rewrite Z.sub_diag. reflexivity.
      + destruct (Z.eqb_spec (n - r) 0); [lia|].
        destruct (Z.eqb_spec (n - r) n); [lia|]. cbn [orb].
        replace (n - (n - r)) with r by lia.
        rewrite Z.min_comm. reflexivity. }
  rewrite <- E.
  assert (exists v, MathHelpers.binomial_mod n r 1000 = Ok v) as [v Hv].
  { unfold MathHelpers.binomial_mod.
    destruct (n <? r); [eauto|].
    destruct ((r =? 0) || (r =? n)); [eauto|].
    apply binomial_loop_returns. lia. }
  exists v. auto.
Qed.

(** Once the reduced [r] is 2 or more, the loop of [_combination] reaches
    [pow(2, -1, 1000)], which raises. *)
Lemma combination_raises (n r : Z) :
  0 <= r <= n -> 2 <= Z.min r (n - r) ->
  CombinatoricsSolver._combination n r = Raise ValueError.
Proof.
  intros H Hm. unfold CombinatoricsSolver._combination.
  destruct (Z.ltb_spec n r); [lia|]. cbv zeta.
  rewrite (range_cons 0) by lia. rewrite (range_cons (0 + 1)) by lia.
  cbn [CombinatoricsSolver.combination_loop].
  change (CombinatoricsSolver.pow_neg1 (0 + 1) 1000) with (@Ok Z 1).
  change (CombinatoricsSolver.pow_neg1 (0 + 1 + 1) 1000)
    with (@Raise Z ValueError).
  reflexivity.
Qed.

(** C7 fails on the solver's [_combination].  For [0 <= r <= n] with
    [min(r, n - r) >= 2], both [_combination(n, r)] and
    [_combination(n, n - r)] raise [ValueError], so the comparison
    [combination(n, r) == combination(n, n - r)] raises and is not true;
    [_combination(4, 2)] is the smallest case.  The library's
    [binomial_mod] does return a value there, and the same one on both
    sides. *)
Theorem combination_symmetry_raises (n r : Z) :
  0 <= r <= n ->
  2 <= Z.min r (n - r) ->
  CombinatoricsSolver._combination n r = Raise ValueError
  /\ CombinatoricsSolver._combination n (n - r) = Raise ValueError
  /\ exists v, MathHelpers.binomial_mod n r 1000 = Ok v
               /\ MathHelpers.binomial_mod n (n - r) 1000 = Ok v.
Proof.
  intros H Hm.
  split; [apply combination_raises; assumption|].
  split; [|apply binomial_mod_symmetric; exact H].
  apply combination_raises; [lia|].
  replace (n - (n - r)) with r by lia. lia.
Qed.

Lemma combination_symmetry_raises_witness :
  CombinatoricsSolver._combination 4 2 = Raise ValueError
  /\ CombinatoricsSolver._combination 4 (4 - 2) = Raise ValueError
  /\ exists v, MathHelpers.binomial_mod 4 2 1000 = Ok v
               /\ MathHelpers.binomial_mod 4 (4 - 2) 1000 = Ok v.
Proof. apply (combination_symmetry_raises 4 2); lia. Defined.

Lemma factorial_mod_1000_eq (n : Z) :
  CombinatoricsSolver._factorial_mod_1000 n = MathHelpers.factorial_mod n 1000.
Proof. reflexivity. Qed.

Lemma factorial_mod_small (n : Z) :
  n <= 1000 ->
  MathHelpers.factorial_mod n 1000
  = fold_left (fun result i => (result * i) mod 1000) (range 1 (n + 1)) 1.
Proof.
  intros H. unfold MathHelpers.factorial_mod.
  replace (Z.min (n + 1) (1000 + 1)) with (n + 1) by lia. reflexivity.
Qed.

Lemma factorial_mod_large (n : Z) :
  1000 <= n -> MathHelpers.factorial_mod n 1000 = 0.
Proof.
  intros H. unfold MathHelpers.factorial_mod.
  replace (Z.min (n + 1) (1000 + 1)) with 1001 by lia.
  vm_compute. reflexivity.
Qed.

Lemma factorial_mod_step (n : Z) :
  1 <= n ->
  MathHelpers.factorial_mod n 1000
  = (MathHelpers.factorial_mod (n - 1) 1000 * n) mod 1000.
Proof.
  intros H. destruct (Z_le_gt_dec n 1000) as [Hs|Hl].
  - rewrite !factorial_mod_small by lia.
    replace (n - 1 + 1) with n by lia.
    rewrite range_snoc by lia. rewrite fold_left_app. reflexivity.
  - rewrite !factorial_mod_large by lia. reflexivity.
Qed.

(** C8.  [factorial_mod(0, 1000)] is 1 and, for every [n >= 1],
    [factorial_mod(n, 1000) = (factorial_mod(n - 1, 1000) * n) % 1000]; the
    same holds of the solver's [_factorial_mod_1000].  Past the bound of the
    loop both sides are 0. *)
Theorem factorial_mod_recurrence :
  MathHelpers.factorial_mod 0 1000 = 1
  /\ CombinatoricsSolver._factorial_mod_1000 0 = 1
  /\ forall n, 1 <= n ->
       MathHelpers.factorial_mod n 1000
       = (MathHelpers.factorial_mod (n - 1) 1000 * n) mod 1000
       /\ CombinatoricsSolver._factorial_mod_1000 n
          = (CombinatoricsSolver._factorial_mod_1000 (n - 1) * n) mod 1000.
Proof.
  split; [reflexivity|]. split; [reflexivity|].
  intros n H. rewrite !factorial_mod_1000_eq.
  split; apply factorial_mod_step; assumption.
Qed.

Lemma factorial_mod_recurrence_witness :
  MathHelpers.factorial_mod 1001 1000
  = (MathHelpers.factorial_mod (1001 - 1) 1000 * 1001) mod 1000
  /\ CombinatoricsSolver._factorial_mod_1000 1001
     = (CombinatoricsSolver._factorial_mod_1000 (1001 - 1) * 1001) mod 1000.
Proof.
  apply (proj2 (proj2 factorial_mod_recurrence) 1001). lia.
Defined.

(** C10.  When both [k] and [n - k] are at least 2, [binomial_mod(n, k, 1000)]
    returns 0: the second pass of the loop asks for the inverse of 2 modulo
    1000, there is none, and the function returns 0. *)
Theorem binomial_mod_1000_is_zero (n k : Z) :
  0 <= k <= n -> 2 <= Z.min k (n - k) ->
  MathHelpers.binomial_mod n k 1000 = Ok 0.
Proof.
  intros H Hmin. unfold MathHelpers.binomial_mod.
  destruct (Z.ltb_spec n k); [lia|].
  destruct (Z.eqb_spec k 0); [lia|].
  destruct (Z.eqb_spec k n); [lia|]. cbn [orb].
  rewrite (range_cons 0) by lia. rewrite (range_cons (0 + 1)) by lia.
  cbn [MathHelpers.binomial_loop].
  change (MathHelpers.mod_inverse (0 + 1) 1000) with (@Ok (option Z) (Some 1)).
  change (MathHelpers.mod_inverse (0 + 1 + 1) 1000) with (@Ok (option Z) None).
  unfold mod_. cbn. reflexivity.
Qed.

Lemma binomial_mod_1000_is_zero_witness :
  MathHelpers.binomial_mod 4 2 1000 = Ok 0.
Proof. apply (binomial_mod_1000_is_zero 4 2); lia. Defined.

(** ** The classifier *)

Import Main.

Lemma name_eq_dec (a b : SolverName) : {a = b} + {a <> b}.
Proof. decide equality. Qed.

Lemma score_acc (text_lower : text) (l : list string) (s0 : Z) :
  fold_left (fun s indicator =>
               if contains (str indicator) text_lower then s + 1 else s) l s0
  = s0 + score text_lower l.
Proof.
  unfold score. revert s0.
  induction l as [|w l IH] using rev_ind; intros s0; cbn; [lia|].
  rewrite !fold_left_app. cbn. rewrite (IH s0).
  destruct (contains (str w) text_lower); lia.
Qed.

Lemma score_nonneg (text_lower : text) (l : list string) :
  0 <= score text_lower l.
Proof.
  induction l as [|w l IH] using rev_ind; [cbn; lia|].
  unfold score in *. rewrite fold_left_app. cbn.
  destruct (contains (str w) text_lower); lia.
Qed.

Lemma keyword_count_nonneg (c : SolverName) (t : text) : 0 <= keyword_count c t.
Proof. apply score_nonneg. Qed.

Lemma type_scores_counts (t : text) :
  type_scores t
  = [ (geometry, keyword_count geometry t);
      (number_theory, keyword_count number_theory t);
      (sequence, keyword_count sequence t);
      (combinatorics, keyword_count combinatorics t);
      (arithmetic, keyword_count arithmetic t) ].
Proof. reflexivity. Qed.

Lemma max_count_scores (t : text) :
  max_ (map snd (type_scores t)) = max_count t.
Proof. reflexivity. Qed.

(** The scan of five scores, on the scores alone. *)
Lemma first_maximum (a b c d e : Z) :
  let m := Z.max (Z.max (Z.max (Z.max a b) c) d) e in
  0 < m ->
  exists before x after n,
    [ (geometry, a); (number_theory, b); (sequence, c);
      (combinatorics, d); (arithmetic, e) ]
    = before ++ (x, n) :: after
    /\ n = m
    /\ Forall (fun p => snd p < m) before
    /\ find (fun p => snd p =? m)
            [ (geometry, a); (number_theory, b); (sequence, c);
              (combinatorics, d); (arithmetic, e) ] = Some (x, n).
Proof.
  intros m Hm. cbn [find snd].
  destruct (Z.eqb_spec a m) as [Ea|Na].
  { exists [], geometry, [(number_theory, b); (sequence, c);
                          (combinatorics, d); (arithmetic, e)], a.
    repeat split; auto. }
  destruct (Z.eqb_spec b m) as [Eb|Nb].
  { exists [(geometry, a)], number_theory,
      [(sequence, c); (combinatorics, d); (arithmetic, e)], b.
    repeat split; auto. repeat constructor; cbn; lia. }
  destruct (Z.eqb_spec c m) as [Ec|Nc].
  { exists [(geometry, a); (number_theory, b)], sequence,
      [(combinatorics, d); (arithmetic, e)], c.
    repeat split; auto. repeat constructor; cbn; lia. }
  destruct (Z.eqb_spec d m) as [Ed|Nd].
  { exists [(geometry, a); (number_theory, b); (sequence, c)], combinatorics,
      [(arithmetic, e)], d.
    repeat split; auto. repeat constructor; cbn; lia. }
  destruct (Z.eqb_spec e m) as [Ee|Ne].
  { exists [(geometry, a); (number_theory, b); (sequence, c);
            (combinatorics, d)], arithmetic, [], e.
    repeat split; auto. repeat constructor; cbn; lia. }
  lia.
Qed.

(** C3, as amended.  The classifier counts, for each category, how many of
    its keywords occur in the lower-cased text.  It returns [pattern] exactly
    when the largest count is 0.  Otherwise it returns the first category, in
    the order geometry, number_theory, sequence, combinatorics, arithmetic,
    whose count is the largest; so a category whose count is strictly above
    all others is the one returned. *)
Theorem classifier_first_maximum (t : text) :
  (max_count t = 0 <-> _identify_problem_type t = pattern)
  /\ (0 < max_count t ->
      exists before after,
        categories = before ++ _identify_problem_type t :: after
        /\ keyword_count (_identify_problem_type t) t = max_count t
        /\ Forall (fun c => keyword_count c t < max_count t) before)
  /\ (forall c, In c categories -> 0 < keyword_count c t ->
        (forall c', In c' categories -> c' <> c ->
                    keyword_count c' t < keyword_count c t) ->
        _identify_problem_type t = c).
Proof.
  assert (Hpos : 0 <= max_count t).
  { unfold max_count. cbn [categories type_indicators map fst max_ fold_left].
    pose proof (keyword_count_nonneg geometry t). lia. }
  assert (Hscan : 0 < max_count t ->
      exists before after,
        categories = before ++ _identify_problem_type t :: after
        /\ keyword_count (_identify_problem_type t) t = max_count t
        /\ Forall (fun c => keyword_count c t < max_count t) before).
  { intros Hm. unfold _identify_problem_type.
    rewrite max_count_scores, type_scores_counts.
    destruct (Z.ltb_spec 0 (max_count t)); [|lia].
    destruct (first_maximum (keyword_count geometry t)
                (keyword_count number_theory t) (keyword_count sequence t)
                (keyword_count combinatorics t) (keyword_count arithmetic t) Hm)
      as (before & x & after & n & Hsplit & Hn & Hbefore & Hfind).
    change (Z.max _ _) with (max_count t) in Hfind, Hn, Hbefore.
    rewrite Hfind. cbn [fst].
    exists (map fst before), (map fst after).
    assert (Hcat : categories = map fst (before ++ (x, n) :: after)).
    { rewrite <- Hsplit. reflexivity. }
    assert (Hall : Forall (fun p => snd p = keyword_count (fst p) t)
                          (before ++ (x, n) :: after)).
    { rewrite <- Hsplit. repeat constructor. }
    rewrite map_app in Hcat. split; [exact Hcat|].
    apply Forall_app in Hall as [Hb Hx].
    apply Forall_inv in Hx. cbn in Hx. split; [lia|].
    apply Forall_map, Forall_forall. intros p Hp.
    rewrite Forall_forall in Hb, Hbefore.
    rewrite <- (Hb p Hp). apply Hbefore, Hp. }
  split; [|split].
  - split.
    + intros H0. unfold _identify_problem_type.
      rewrite max_count_scores, H0. reflexivity.
    + intros Hp. destruct (Z.eq_dec (max_count t) 0) as [|Hne]; [assumption|].
      destruct Hscan as (before & after & Hsplit & _); [lia|].
      rewrite Hp in Hsplit.
      assert (In pattern categories) as Hin.
      { rewrite Hsplit. apply in_or_app. right. left. reflexivity. }
      cbn in Hin. intuition discriminate.
  - exact Hscan.
  - intros c Hc Hcpos Hstrict.
    assert (Hle : keyword_count c t <= max_count t).
    { unfold max_count. cbn [categories type_indicators map fst max_ fold_left].
      cbn in Hc. destruct Hc as [<-|[<-|[<-|[<-|[<-|[]]]]]]; lia. }
    destruct Hscan as (before & after & Hsplit & Hcount & _); [lia|].
    set (r := _identify_problem_type t) in *.
    assert (Hr : In r categories).
    { rewrite Hsplit. apply in_or_app. right. left. reflexivity. }
    destruct (name_eq_dec r c) as [|Hne]; [assumption|].
    specialize (Hstrict r Hr Hne). lia.
Qed.

Lemma classifier_first_maximum_witness :
  exists before after,
    categories
    = before ++ _identify_problem_type (str "How many ways to arrange 5 books?")
             :: after
    /\ keyword_count
         (_identify_problem_type (str "How many ways to arrange 5 books?"))
         (str "How many ways to arrange 5 books?")
       = max_count (str "How many ways to arrange 5 books?")
    /\ Forall (fun c => keyword_count c (str "How many ways to arrange 5 books?")
                        < max_count (str "How many ways to arrange 5 books?"))
              before.
Proof.
  apply (proj1 (proj2 (classifier_first_maximum
                         (str "How many ways to arrange 5 books?")))).
  vm_compute. reflexivity.
Defined.

(** C3, as stated, fails on a tie: in ["circle prime"] geometry and
    number_theory both have the largest count, 1, and the classifier returns
    [geometry], not [pattern].  A repeated keyword counts once: in
    ["prime prime circle"] the counts are again 1 and 1, and the answer is
    again [geometry]. *)
Lemma classifier_tie_is_not_pattern :
  keyword_count geometry (str "circle prime") = 1
  /\ keyword_count number_theory (str "circle prime") = 1
  /\ max_count (str "circle prime") = 1
  /\ _identify_problem_type (str "circle prime") = geometry
  /\ _identify_problem_type (str "circle prime") <> pattern
  /\ keyword_count number_theory (str "prime prime circle") = 1
  /\ _identify_problem_type (str "prime prime circle") = geometry.
Proof. vm_compute. repeat split; discriminate. Qed.

(** ** The dispatcher *)

(** C1.  Whatever the solvers do (return an integer, a float, [None], or
    raise) and whatever the state of the dispatcher, [solve_problem] returns
    an integer between 0 and 999: a solver's result goes through [mod_1000],
    an exception becomes 42. *)
Theorem solve_problem_in_range
        (LatexExpression : Type) (parse_latex : text -> list LatexExpression)
        (solvers : SolverName -> text -> Memo.Prog (outcome pyval))
        (problem_text : text) (st : State) :
  0 <= fst (solve_problem LatexExpression parse_latex solvers problem_text st)
    <= 999.
Proof.
  unfold solve_problem, catch, bindM, modify, solve, ret. cbn [stats caches].
  destruct (Memo.run (solvers (_identify_problem_type problem_text) problem_text)
                     (caches st)) as [[v|e] cs]; cbn [fst]; [|lia].
  destruct v as [|z|f].
  - destruct (negb (name_eqb (_identify_problem_type problem_text) pattern));
      cbn [fst]; [|lia].
    cbn [stats caches].
    destruct (Memo.run (solvers pattern problem_text) cs) as [[v|e] cs'];
      cbn [fst]; [|lia].
    destruct v; cbn [fst]; try lia; apply mod_1000_range.
  - cbn [fst]. apply mod_1000_range.
  - cbn [fst]. apply mod_1000_range.
Qed.

(** ** Memoisation is invisible *)

Lemma key_eqb_eq (a b : Memo.key) : Memo.key_eqb a b = true -> a = b.
Proof.
  destruct a as [x [p|]], b as [y [q|]]; unfold Memo.key_eqb; cbn;
    intros H; apply andb_prop in H as [H1 H2];
    apply Z.eqb_eq in H1; subst; try discriminate; try reflexivity.
  apply Z.eqb_eq in H2. subst. reflexivity.
Qed.

Lemma lookup_in (k : Memo.key) (c : Memo.cache) (v : Z) :
  Memo.lookup k c = Some v -> In (k, v) c.
Proof.
  induction c as [|[k' w] c IH]; cbn; [discriminate|].
  destruct (Memo.key_eqb k k') eqn:E.
  - intros [= ->]. left. apply key_eqb_eq in E. subst. reflexivity.
  - intros H. right. apply IH, H.
Qed.

Lemma in_firstn {A} (n : nat) (l : list A) (x : A) : In x (firstn n l) -> In x l.
Proof.
  revert n. induction l as [|y l IH]; intros [|n]; cbn; try tauto.
  intros [->|H]; [left; reflexivity|right; eapply IH, H].
Qed.

(** A call through the cache returns what the function returns, and leaves
    a cache that still holds only values of the function. *)
Lemma call_transparent (f : Memo.fn) (k : Memo.key) (c : Memo.cache) :
  (forall k' v, In (k', v) c -> Memo.sem f k' = Ok v) ->
  fst (Memo.call f k c) = Memo.sem f k
  /\ (forall k' v, In (k', v) (snd (Memo.call f k c)) -> Memo.sem f k' = Ok v).
Proof.
  intros Hc. unfold Memo.call.
  destruct (Memo.lookup k c) as [v|] eqn:El.
  - apply lookup_in in El. cbn [fst snd]. split; [symmetry; apply Hc, El|].
    intros k' v' [[= <- <-]|Hin]; [apply Hc, El|].
    unfold Memo.remove in Hin. apply filter_In in Hin as [Hin _]. apply Hc, Hin.
  - destruct (Memo.sem f k) as [v|e] eqn:Es; cbn [fst snd]; (split; [reflexivity|]).
    + intros k' v' Hin. apply in_firstn in Hin.
      destruct Hin as [[= <- <-]|Hin]; [exact Es|apply Hc, Hin].
    + exact Hc.
Qed.

Lemma update_coherent (f : Memo.fn) (c : Memo.cache) (cs : Memo.caches) :
  Memo.coherent cs ->
  (forall k v, In (k, v) c -> Memo.sem f k = Ok v) ->
  Memo.coherent (Memo.update f c cs).
Proof.
  intros Hcs Hc g k v. unfold Memo.update.
  destruct f, g; cbn [Memo.fn_eqb]; intros Hin;
    first [exact (Hc k v Hin) | exact (Hcs _ k v Hin)].
Qed.

Lemma run_transparent {A} (p : Memo.Prog A) :
  forall cs, Memo.coherent cs ->
             fst (Memo.run p cs) = Memo.denote p
             /\ Memo.coherent (snd (Memo.run p cs)).
Proof.
  induction p as [a|f k cont IH]; intros cs Hcs; cbn; [auto|].
  destruct (call_transparent f k (cs f) (Hcs f)) as [Hr Hc].
  destruct (Memo.call f k (cs f)) as [r c]. cbn in Hr, Hc. subst r.
  apply IH, update_coherent; assumption.
Qed.

(** From a state with coherent caches [solve_problem] returns [answer], a
    function of the text alone; it leaves coherent caches and has counted
    the call. *)
Lemma solve_problem_answer
      (LatexExpression : Type) (parse_latex : text -> list LatexExpression)
      (solvers : SolverName -> text -> Memo.Prog (outcome pyval))
      (problem_text : text) (st : State) :
  Memo.coherent (caches st) ->
  let r := solve_problem LatexExpression parse_latex solvers problem_text st in
  fst r = answer solvers problem_text
  /\ Memo.coherent (caches (snd r))
  /\ problems_processed (stats (snd r)) = problems_processed (stats st) + 1.
Proof.
  intros Hcs.
  unfold solve_problem, answer, catch, bindM, modify, solve, ret.
  cbn [stats caches].
  set (ty := _identify_problem_type problem_text).
  destruct (run_transparent (solvers ty problem_text) (caches st) Hcs)
    as [Hr Hc].
  destruct (Memo.run (solvers ty problem_text) (caches st)) as [r cs].
  cbn in Hr, Hc. rewrite <- Hr.
  destruct r as [[|z|f]|e]; cbn; auto.
  destruct (negb (name_eqb ty pattern)); cbn; auto.
  destruct (run_transparent (solvers pattern problem_text) cs Hc)
    as [Hr' Hc'].
  destruct (Memo.run (solvers pattern problem_text) cs) as [r' cs'].
  cbn in Hr', Hc'. rewrite <- Hr'.
  destruct r' as [[|z|f]|e]; cbn; auto.
Qed.

(** C9.  From any state whose caches hold only values of the memoised
    functions (the state of a fresh dispatcher, and every state reached from
    it), two successive calls of [solve_problem] on the same text return the
    same answer, although the first call has changed the counters and may
    have filled the caches. *)
Theorem solve_problem_idempotent
        (LatexExpression : Type) (parse_latex : text -> list LatexExpression)
        (solvers : SolverName -> text -> Memo.Prog (outcome pyval))
        (problem_text : text) (st : State) :
  Memo.coherent (caches st) ->
  let first := solve_problem LatexExpression parse_latex solvers problem_text st in
  let second :=
    solve_problem LatexExpression parse_latex solvers problem_text (snd first) in
  fst second = fst first
  /\ problems_processed (stats (snd second)) = problems_processed (stats st) + 2.
Proof.
  intros Hcs first second.
  destruct (solve_problem_answer LatexExpression parse_latex solvers
              problem_text st Hcs) as (H1 & Hc1 & Hn1).
  destruct (solve_problem_answer LatexExpression parse_latex solvers
              problem_text (snd first) Hc1) as (H2 & _ & Hn2).
  fold first in H1, Hn1. fold second in H2, Hn2.
  split; [congruence|lia].
Qed.

Lemma solve_problem_idempotent_witness :
  let first := solve_problem unit (fun _ => []) counting_solver (str "ways") initial in
  let second := solve_problem unit (fun _ => []) counting_solver (str "ways") (snd first) in
  fst second = fst first
  /\ problems_processed (stats (snd second)) = problems_processed (stats initial) + 2.
Proof.
  apply (solve_problem_idempotent unit (fun _ => []) counting_solver (str "ways") initial).
  intros f k v H. simpl in H. contradiction.
Defined.

(** ** The geometry solver *)

(** C2 fails on the geometry solver in two places.  Its constructor raises
    [AttributeError]: the first handler named in the pattern table,
    [_handle_triangle], is defined nowhere.  And with the tables taken as
    built, [solve] returns the float 3.5 for a text whose only number is
    3.5: the area handler finds no triangle and the heuristic's
    [max(numbers) % 1000] is returned as it is. *)
Theorem geometry_solver_defects
        (fsqrt fsin_degrees : Q -> Q) (fsum : list pyfloat -> pyfloat)
        (absent_handler : string -> GeometrySolver.GeometricProblem
                          -> outcome (option pyval)) :
  GeometrySolver.__init__ = Raise (AttributeError "_handle_triangle")
  /\ GeometrySolver.solve fsqrt fsin_degrees fsum absent_handler
       (str "Find the area of a square with side 3.5.")
     = PyFloat (Finite (7 # 2)).
Proof. split; vm_compute; reflexivity. Qed.

(** C5 fails.  The text is classified as geometry; the geometry solver finds
    no triangle in it (its pattern wants a lower-case [triangle]) and no side
    (it wants [AB = 3]), so the area handler returns [None] and the heuristic
    returns the largest number, 5.0; [solve_problem] returns 5. *)
Theorem triangle_345_gives_5
        (fsqrt fsin_degrees : Q -> Q) (fsum : list pyfloat -> pyfloat)
        (absent_handler : string -> GeometrySolver.GeometricProblem
                          -> outcome (option pyval))
        (LatexExpression : Type) (parse_latex : text -> list LatexExpression)
        (others : SolverName -> text -> Memo.Prog (outcome pyval))
        (st : State) :
  let problem_text :=
    str "Triangle ABC has sides of length 3, 4, and 5. Find its area." in
  _identify_problem_type problem_text = geometry
  /\ GeometrySolver.solve fsqrt fsin_degrees fsum absent_handler problem_text
     = PyFloat (Finite 5)
  /\ fst (solve_problem LatexExpression parse_latex
            (with_geometry
               (GeometrySolver.solve fsqrt fsin_degrees fsum absent_handler) others)
            problem_text st) = 5.
Proof.
  cbv zeta. split; [vm_compute; reflexivity|].
  split; [vm_compute; reflexivity|].
  vm_compute. reflexivity.
Qed.

(* ================================================================== *)
(** * Further properties of the code *)

Import Reference.

(** ** [math_helpers]: gcd, lcm, inverses, Fibonacci, factorials *)

Lemma gcd_loop_spec (fuel : nat) :
  forall a b, (Z.abs_nat b < fuel)%nat ->
              exists g, MathHelpers.gcd_loop fuel a b = Some g /\ Z.abs g = Z.gcd a b.
Proof.
  induction fuel as [|fuel IH]; intros a b Hf; [lia|].
  cbn [MathHelpers.gcd_loop].
  destruct (Z.eqb_spec b 0) as [->|Hb].
  - exists a. split; [reflexivity|]. rewrite Z.gcd_0_r. reflexivity.
  - destruct (IH b (a mod b)) as (g & Hg & Habs).
    + assert (Z.abs (a mod b) < Z.abs b).
      { destruct (Z_lt_le_dec 0 b).
        - pose proof (Z.mod_pos_bound a b ltac:(lia)). lia.
        - pose proof (Z.mod_neg_bound a b ltac:(lia)). lia. }
      lia.
    + exists g. split; [exact Hg|].
      rewrite Habs, Z.gcd_comm, Z.gcd_mod by assumption. apply Z.gcd_comm.
Qed.

Lemma gcd_value (a b : Z) : MathHelpers.gcd a b = Some (Z.gcd a b).
Proof.
  unfold MathHelpers.gcd.
  destruct (gcd_loop_spec (S (Z.abs_nat b)) a b ltac:(lia)) as (g & -> & Hg).
  cbn. rewrite Hg. reflexivity.
Qed.

(** X1.  [gcd(a, b)] ends for all integers and returns the greatest common
    divisor, a non-negative number.  [lcm(a, b)] raises [ZeroDivisionError]
    when both arguments are 0 and returns the least common multiple
    otherwise. *)
Theorem gcd_lcm_correct (a b : Z) :
  MathHelpers.gcd a b = Some (Z.gcd a b)
  /\ MathHelpers.lcm a b
     = Some (if (a =? 0) && (b =? 0) then Raise ZeroDivisionError
             else Ok (Z.lcm a b)).
Proof.
  split; [apply gcd_value|].
  unfold MathHelpers.lcm. rewrite gcd_value. cbn [option_map]. f_equal.
  unfold MathHelpers.floordiv.
  destruct (Z.eqb_spec (Z.gcd a b) 0) as [H0|Hn].
  - apply Z.gcd_eq_0 in H0 as [-> ->]. reflexivity.
  - assert (Hz : (a =? 0) && (b =? 0) = false).
    { destruct (Z.eqb_spec a 0) as [->|]; [|reflexivity].
      destruct (Z.eqb_spec b 0) as [->|]; [|reflexivity].
      exfalso. apply Hn. reflexivity. }
    rewrite Hz. f_equal. unfold Z.lcm.
    destruct (Z.gcd_divide_r a b) as [k Hk].
    pose proof (Z.gcd_nonneg a b).
    set (g := Z.gcd a b) in *.
    rewrite Hk at 1 2. rewrite Z.div_mul by assumption.
    rewrite Z.mul_assoc, Z.abs_mul, (Z.abs_eq g) by lia.
    apply Z.div_mul. assumption.
Qed.

Lemma extended_gcd_fuel_bezout (fuel : nat) :
  forall a b g x y,
    MathHelpers.extended_gcd_fuel fuel a b = Some (g, x, y) ->
    a * x + b * y = g.
Proof.
  induction fuel as [|fuel IH]; intros a b g x y; cbn; [discriminate|].
  destruct (Z.eqb_spec a 0) as [->|Ha].
  - intros [= <- <- <-]. lia.
  - destruct (MathHelpers.extended_gcd_fuel fuel (b mod a) a)
      as [[[g' x1] y1]|] eqn:E; [|discriminate].
    intros [= <- <- <-]. apply IH in E.
    pose proof (Z.div_mod b a Ha). nia.
Qed.

Lemma extended_gcd_fuel_gcd (fuel : nat) :
  forall a b g x y,
    0 <= a -> 0 <= b ->
    MathHelpers.extended_gcd_fuel fuel a b = Some (g, x, y) ->
    g = Z.gcd a b.
Proof.
  induction fuel as [|fuel IH]; intros a b g x y Ha Hb; cbn; [discriminate|].
  destruct (Z.eqb_spec a 0) as [->|Hne].
  - intros [= <- <- <-]. rewrite Z.gcd_0_l, Z.abs_eq; lia.
  - destruct (MathHelpers.extended_gcd_fuel fuel (b mod a) a)
      as [[[g' x1] y1]|] eqn:E; [|discriminate].
    intros [= <- <- <-]. apply IH in E; [|apply Z.mod_pos_bound; lia|lia].
    rewrite E, Z.gcd_mod by assumption. reflexivity.
Qed.

Lemma mod_inverse_coprime (a m : Z) :
  0 < a -> 1 < m -> Z.gcd a m = 1 ->
  exists x, MathHelpers.mod_inverse a m = Ok (Some x)
            /\ 0 <= x < m /\ (a * x) mod m = 1.
Proof.
  intros Ha Hm H. unfold MathHelpers.mod_inverse.
  destruct (extended_gcd_total a m) as [[[g x] y] E]. rewrite E.
  unfold MathHelpers.extended_gcd in E.
  pose proof (extended_gcd_fuel_bezout _ _ _ _ _ _ E) as Hbez.
  pose proof (extended_gcd_fuel_gcd _ a m g x y ltac:(lia) ltac:(lia) E) as Hg.
  assert (g = 1) as -> by lia. cbn [Z.eqb negb].
  unfold mod_. destruct (Z.eqb_spec m 0); [lia|]. cbn [bind].
  exists ((x mod m + m) mod m). split; [reflexivity|].
  pose proof (Z.mod_pos_bound (x mod m + m) m ltac:(lia)).
  split; [lia|].
  rewrite Z.add_mod, Z.mod_same, Z.add_0_r, !Z.mod_mod by lia.
  rewrite Z.mul_mod_idemp_r by lia.
  replace (a * x) with (1 + (- y) * m) by lia.
  rewrite Z.mod_add by lia. apply Z.mod_small. lia.
Qed.

Lemma mod_inverse_not_coprime (a m : Z) :
  0 < a -> 1 < m -> Z.gcd a m <> 1 -> MathHelpers.mod_inverse a m = Ok None.
Proof.
  intros Ha Hm H. unfold MathHelpers.mod_inverse.
  destruct (extended_gcd_total a m) as [[[g x] y] E]. rewrite E.
  unfold MathHelpers.extended_gcd in E.
  pose proof (extended_gcd_fuel_gcd _ a m g x y ltac:(lia) ltac:(lia) E) as Hg.
  destruct (Z.eqb_spec g 1); [lia|]. reflexivity.
Qed.

(** X2.  For [a > 0] and [m > 1], [mod_inverse(a, m)] returns an [x] in
    [0, m) with [(a * x) % m == 1] when [a] and [m] are coprime, and [None]
    when they are not. *)
Theorem mod_inverse_correct (a m : Z) :
  0 < a -> 1 < m ->
  (Z.gcd a m = 1 ->
   exists x, MathHelpers.mod_inverse a m = Ok (Some x)
             /\ 0 <= x < m /\ (a * x) mod m = 1)
  /\ (Z.gcd a m <> 1 -> MathHelpers.mod_inverse a m = Ok None).
Proof.
  intros Ha Hm. split; intros H.
  - apply mod_inverse_coprime; assumption.
  - apply mod_inverse_not_coprime; assumption.
Qed.

Lemma mod_inverse_correct_witness :
  exists x, MathHelpers.mod_inverse 7 1000 = Ok (Some x)
            /\ 0 <= x < 1000 /\ (7 * x) mod 1000 = 1.
Proof.
  apply (proj1 (mod_inverse_correct 7 1000 ltac:(lia) ltac:(lia))).
  reflexivity.
Defined.


Lemma fibonacci_loop (m : Z) (k : nat) :
  m <> 0 ->
  exists a b,
    fold_left (fun acc (_ : Z) =>
                 ab <- acc ;;
                 s <- mod_ (fst ab + snd ab) m ;;
                 Ok (snd ab, s))%py
              (range 2 (2 + Z.of_nat k)) (Ok (0, 1)) = Ok (a, b)
    /\ MathHelpers.fibonacci_mod (Z.of_nat k) m = Ok a
    /\ MathHelpers.fibonacci_mod (1 + Z.of_nat k) m = Ok b.
Proof.
  intros Hm. induction k as [|k IH].
  - exists 0, 1. rewrite range_nil by lia. repeat split.
  - destruct IH as (a & b & Hfold & Ha & Hb).
    assert (Hstep :
      fold_left (fun acc (_ : Z) =>
                 ab <- acc ;;
                 s <- mod_ (fst ab + snd ab) m ;;
                 Ok (snd ab, s))%py
              (range 2 (2 + Z.of_nat (S k))) (Ok (0, 1))
      = Ok (b, (a + b) mod m)).
    { replace (2 + Z.of_nat (S k)) with (2 + Z.of_nat k + 1) by lia.
      rewrite range_snoc by lia. rewrite fold_left_app, Hfold. cbn.
      unfold mod_. destruct (Z.eqb_spec m 0); [contradiction|]. reflexivity. }
    exists b, ((a + b) mod m). split; [exact Hstep|]. split.
    + replace (Z.of_nat (S k)) with (1 + Z.of_nat k) by lia. exact Hb.
    + unfold MathHelpers.fibonacci_mod.
      destruct (Z.leb_spec (1 + Z.of_nat (S k)) 1); [lia|].
      replace (1 + Z.of_nat (S k) + 1) with (2 + Z.of_nat (S k)) by lia.
      rewrite Hstep. reflexivity.
Qed.

(** X3.  For [n >= 2] and a modulus other than 0, [fibonacci_mod(n, m)],
    [fibonacci_mod(n - 1, m)] and [fibonacci_mod(n - 2, m)] all return, and
    the first is the sum of the other two reduced modulo [m]. *)
Theorem fibonacci_mod_recurrence (n m : Z) :
  2 <= n -> m <> 0 ->
  exists f0 f1,
    MathHelpers.fibonacci_mod (n - 2) m = Ok f0
    /\ MathHelpers.fibonacci_mod (n - 1) m = Ok f1
    /\ MathHelpers.fibonacci_mod n m = Ok ((f0 + f1) mod m).
Proof.
  intros Hn Hm.
  destruct (fibonacci_loop m (Z.to_nat (n - 2)) Hm) as (a & b & Hfold & Ha & Hb).
  rewrite Z2Nat.id in * by lia.
  exists a, b. split; [exact Ha|]. split.
  - replace (n - 1) with (1 + (n - 2)) by lia. exact Hb.
  - unfold MathHelpers.fibonacci_mod.
    destruct (Z.leb_spec n 1); [lia|].
    replace (n + 1) with (2 + (n - 2) + 1) by lia.
    rewrite range_snoc by lia. rewrite fold_left_app, Hfold. cbn.
    unfold mod_. destruct (Z.eqb_spec m 0); [contradiction|]. reflexivity.
Qed.

Lemma fibonacci_mod_recurrence_witness :
  exists f0 f1,
    MathHelpers.fibonacci_mod (10 - 2) 1000 = Ok f0
    /\ MathHelpers.fibonacci_mod (10 - 1) 1000 = Ok f1
    /\ MathHelpers.fibonacci_mod 10 1000 = Ok ((f0 + f1) mod 1000).
Proof. apply (fibonacci_mod_recurrence 10 1000); lia. Defined.


Lemma sum_mod_spec (numbers : list Z) (m : Z) :
  m <> 0 ->
  exists s, MathHelpers.sum_mod numbers m = Ok s
            /\ s mod m = total numbers mod m.
Proof.
  intros Hm. induction numbers as [|x rest (s & Hs & Heq)]; cbn.
  - exists 0. split; reflexivity.
  - unfold mod_ at 1. destruct (Z.eqb_spec m 0); [contradiction|]. cbn.
    rewrite Hs. cbn. eexists. split; [reflexivity|].
    rewrite Z.add_mod, Z.mod_mod, Heq, <- Z.add_mod by assumption. reflexivity.
Qed.

Lemma mod_inverse_one (m : Z) : 1 < m -> MathHelpers.mod_inverse 1 m = Ok (Some 1).
Proof.
  intros Hm.
  destruct (mod_inverse_coprime 1 m ltac:(lia) Hm (Z.gcd_1_l m))
    as (x & Hx & Hrange & Hone).
  rewrite Z.mul_1_l, Z.mod_small in Hone by lia. subst x. exact Hx.
Qed.

(** X4.  For a non-empty list and [m > 1]: when the length of the list is
    coprime to [m], [mean_mod] returns a [v] in [0, m) with
    [v * len == sum (mod m)]; when it is not, [mean_mod] returns 0, whatever
    the numbers. *)
Theorem mean_mod_spec (numbers : list Z) (m : Z) :
  numbers <> [] -> 1 < m ->
  let len := Z.of_nat (List.length numbers) in
  (Z.gcd len m = 1 ->
   exists v, MathHelpers.mean_mod numbers m = Ok v
             /\ 0 <= v < m
             /\ (v * len) mod m = total numbers mod m)
  /\ (Z.gcd len m <> 1 -> MathHelpers.mean_mod numbers m = Ok 0).
Proof.
  intros Hne Hm len.
  assert (Hlen : 0 < len) by (destruct numbers; [contradiction|cbn in *; lia]).
  unfold MathHelpers.mean_mod.
  destruct numbers as [|x rest]; [contradiction|].
  destruct (sum_mod_spec (x :: rest) m ltac:(lia)) as (s & Hs & Hsum).
  rewrite Hs. cbn [bind]. unfold mod_ at 1.
  destruct (Z.eqb_spec m 0); [lia|]. cbn [bind].
  fold len.
  split; intros Hg.
  - destruct (mod_inverse_coprime len m Hlen Hm Hg) as (v & Hv & Hrange & Hone).
    rewrite Hv. cbn [bind].
    unfold mod_. destruct (Z.eqb_spec m 0); [lia|].
    eexists. split; [reflexivity|].
    split; [apply Z.mod_pos_bound; lia|].
    rewrite Z.mul_mod_idemp_l by lia.
    rewrite <- Z.mul_assoc, (Z.mul_comm v len).
    rewrite <- Z.mul_mod_idemp_r, Hone, Z.mul_1_r, Z.mod_mod by lia.
    exact Hsum.
  - rewrite (mod_inverse_not_coprime len m Hlen Hm Hg).
    unfold mod_. destruct (Z.eqb_spec m 0); [lia|]. reflexivity.
Qed.

Lemma mean_mod_spec_witness :
  exists v, MathHelpers.mean_mod [10; 20; 33] 1000 = Ok v
            /\ 0 <= v < 1000
            /\ (v * 3) mod 1000 = Reference.total [10; 20; 33] mod 1000.
Proof.
  apply (proj1 (mean_mod_spec [10; 20; 33] 1000 ltac:(discriminate) ltac:(lia))).
  reflexivity.
Defined.


(** X5.  For [n >= 2] and [m > 1], [binomial_mod(n, 1, m)] and
    [binomial_mod(n, n - 1, m)] return [n % m], the binomial coefficient
    reduced modulo [m]. *)
Theorem binomial_mod_one (n m : Z) :
  2 <= n -> 1 < m ->
  MathHelpers.binomial_mod n 1 m = Ok (n mod m)
  /\ MathHelpers.binomial_mod n (n - 1) m = Ok (n mod m).
Proof.
  intros Hn Hm.
  assert (H1 : MathHelpers.binomial_loop n m (range 0 1) 1 = Ok (n mod m)).
  { rewrite range_cons, range_nil by lia. cbn [MathHelpers.binomial_loop].
    replace (0 + 1) with 1 by lia. rewrite mod_inverse_one by lia.
    unfold mod_. destruct (Z.eqb_spec m 0); [lia|]. cbn [bind].
    rewrite Z.mul_1_l, Z.sub_0_r, Z.mul_1_r, Z.mod_mod by lia. reflexivity. }
  unfold MathHelpers.binomial_mod. split.
  - destruct (Z.ltb_spec n 1); [lia|].
    destruct (Z.eqb_spec 1 n); [lia|]. cbn [Z.eqb orb].
    replace (Z.min 1 (n - 1)) with 1 by lia. exact H1.
  - destruct (Z.ltb_spec n (n - 1)); [lia|].
    destruct (Z.eqb_spec (n - 1) 0); [lia|].
    destruct (Z.eqb_spec (n - 1) n); [lia|]. cbn [orb].
    replace (Z.min (n - 1) (n - (n - 1))) with 1 by lia. exact H1.
Qed.

Lemma binomial_mod_one_witness :
  MathHelpers.binomial_mod 5 1 1000 = Ok (5 mod 1000)
  /\ MathHelpers.binomial_mod 5 (5 - 1) 1000 = Ok (5 mod 1000).
Proof. apply (binomial_mod_one 5 1000); lia. Defined.



Lemma product_app (l1 l2 : list Z) : product (l1 ++ l2) = product l1 * product l2.
Proof.
  unfold product. induction l1 as [|x l1 IH]; cbn [app fold_right]; [lia|].
  rewrite IH. lia.
Qed.

(** A product reduced at every step is the product reduced once. *)
Lemma fold_mul_mod (m : Z) (l : list Z) :
  forall r0,
    (fold_left (fun result i => (result * i) mod m) l r0) mod m
    = (r0 * product l) mod m.
Proof.
  induction l as [|x l IH]; intros r0; cbn [fold_left product fold_right].
  - rewrite Z.mul_1_r. reflexivity.
  - rewrite IH. destruct (Z.eq_dec m 0) as [->|Hm].
    + rewrite !Z.mod_0_r. unfold product. ring.
    + rewrite Z.mul_mod_idemp_l by assumption. f_equal. unfold product. ring.
Qed.

Lemma fold_mul_mod_reduced (m : Z) (l : list Z) (r0 : Z) :
  l <> [] ->
  fold_left (fun result i => (result * i) mod m) l r0
  = (r0 * product l) mod m.
Proof.
  intros Hl. rewrite <- fold_mul_mod.
  destruct l as [|x l] using rev_ind; [contradiction|].
  rewrite fold_left_app. cbn.
  destruct (Z.eq_dec m 0) as [->|Hm]; [rewrite !Z.mod_0_r; reflexivity|].
  rewrite Z.mod_mod by assumption. reflexivity.
Qed.

Lemma product_range_fact (k : nat) :
  product (range 1 (Z.of_nat k + 1)) = Z.of_nat (fact k).
Proof.
  induction k as [|k IH].
  - reflexivity.
  - replace (Z.of_nat (S k) + 1) with (Z.of_nat k + 1 + 1) by lia.
    rewrite range_snoc by lia. rewrite product_app, IH. cbn [product fold_right].
    cbn [fact]. lia.
Qed.

Lemma divide_fact (m n : nat) : (1 <= m <= n)%nat -> Nat.divide m (fact n).
Proof.
  induction n as [|n IH]; intros H; [lia|].
  cbn [fact]. destruct (Nat.eq_dec m (S n)) as [->|Hne].
  - apply Nat.divide_factor_l.
  - apply Nat.divide_mul_r, IH. lia.
Qed.

Lemma fact_mod_zero (m n : Z) :
  1 <= m <= n -> Z.of_nat (fact (Z.to_nat n)) mod m = 0.
Proof.
  intros H.
  destruct (divide_fact (Z.to_nat m) (Z.to_nat n) ltac:(lia)) as [q Hq].
  rewrite Hq, Nat2Z.inj_mul, Z2Nat.id by lia.
  apply Z.mod_mul. lia.
Qed.

(** X6.  For [n >= 0] and [m >= 2], [factorial_mod(n, m)] is [n!]
    reduced modulo [m]; stopping the loop at [m] loses nothing. *)
Theorem factorial_mod_is_factorial (n m : Z) :
  0 <= n -> 2 <= m ->
  MathHelpers.factorial_mod n m = Z.of_nat (fact (Z.to_nat n)) mod m.
Proof.
  intros Hn Hm. unfold MathHelpers.factorial_mod.
  destruct (Z.eq_dec n 0) as [->|Hn0].
  { rewrite range_nil by lia. cbn. symmetry. apply Z.mod_small. lia. }
  destruct (Z_le_gt_dec n m) as [Hle|Hgt].
  - replace (Z.min (n + 1) (m + 1)) with (Z.of_nat (Z.to_nat n) + 1) by lia.
    rewrite fold_mul_mod_reduced.
    + rewrite product_range_fact, Z.mul_1_l. reflexivity.
    + rewrite range_cons by lia. discriminate.
  - replace (Z.min (n + 1) (m + 1)) with (Z.of_nat (Z.to_nat m) + 1) by lia.
    rewrite fold_mul_mod_reduced.
    + rewrite product_range_fact, Z.mul_1_l.
      rewrite (fact_mod_zero m m), (fact_mod_zero m n) by lia. reflexivity.
    + rewrite range_cons by lia. discriminate.
Qed.

Lemma factorial_mod_is_factorial_witness :
  MathHelpers.factorial_mod 7 1000 = Z.of_nat (fact (Z.to_nat 7)) mod 1000.
Proof. apply (factorial_mod_is_factorial 7 1000); lia. Defined.


(** X7.  For [0 <= r <= n], [_permutation(n, r)] is the product
    [(n - r + 1) * ... * n] reduced modulo 1000, and [_permutation(n)]
    without [r] is [_factorial_mod_1000(n)], also beyond [n = 1000] where
    the latter stops its loop. *)
Theorem permutation_is_product (n r : Z) :
  0 <= r <= n ->
  CombinatoricsSolver._permutation n (Some r)
  = product (range (n - r + 1) (n + 1)) mod 1000
  /\ CombinatoricsSolver._permutation n None
     = CombinatoricsSolver._factorial_mod_1000 n.
Proof.
  intros H. unfold CombinatoricsSolver._permutation. split.
  - destruct (Z.ltb_spec n r); [lia|].
    destruct (Z.eq_dec r 0) as [->|Hr].
    + rewrite range_nil by lia. reflexivity.
    + rewrite fold_mul_mod_reduced, Z.mul_1_l; [reflexivity|].
      rewrite range_cons by lia. discriminate.
  - rewrite Z.ltb_irrefl. replace (n - n + 1) with 1 by lia.
    unfold CombinatoricsSolver._factorial_mod_1000.
    destruct (Z_le_gt_dec n 1000) as [Hle|Hgt].
    + replace (Z.min (n + 1) 1001) with (n + 1) by lia. reflexivity.
    + replace (Z.min (n + 1) 1001) with 1001 by lia.
      rewrite !fold_mul_mod_reduced, !Z.mul_1_l
        by (rewrite range_cons by lia; discriminate).
      replace (n + 1) with (Z.of_nat (Z.to_nat n) + 1) by lia.
      change 1001 with (Z.of_nat (Z.to_nat 1000) + 1).
      rewrite !product_range_fact.
      rewrite (fact_mod_zero 1000 n), (fact_mod_zero 1000 1000) by lia.
      reflexivity.
Qed.

Lemma permutation_is_product_witness :
  CombinatoricsSolver._permutation 7 (Some 3)
  = product (range (7 - 3 + 1) (7 + 1)) mod 1000
  /\ CombinatoricsSolver._permutation 7 None
     = CombinatoricsSolver._factorial_mod_1000 7.
Proof. apply (permutation_is_product 7 3); lia. Defined.


Lemma digits_to_number_app (ds : list Z) (d : Z) :
  MathHelpers.digits_to_number (ds ++ [d])
  = MathHelpers.digits_to_number ds * 10 + d.
Proof. unfold MathHelpers.digits_to_number. rewrite fold_left_app. reflexivity. Qed.

Lemma decimal_spec (fuel : nat) :
  forall n acc,
    0 <= n -> (Z.to_nat n < fuel)%nat ->
    exists ds,
      MathHelpers.decimal fuel n acc = Some (ds ++ acc)
      /\ MathHelpers.digits_to_number ds = n
      /\ Forall (fun d => 0 <= d <= 9) ds
      /\ ds <> [].
Proof.
  induction fuel as [|fuel IH]; intros n acc Hn Hf; [lia|].
  cbn [MathHelpers.decimal].
  destruct (Z.ltb_spec n 10) as [Hs|Hl].
  - exists [n]. split; [reflexivity|]. split; [cbn; lia|].
    split; [|discriminate]. constructor; [lia|constructor].
  - destruct (IH (n / 10) (n mod 10 :: acc)) as (ds & Hd & Hv & Hall & _).
    + apply Z.div_pos; lia.
    + assert (n / 10 < n) by (apply Z.div_lt; lia). lia.
    + exists (ds ++ [n mod 10]). rewrite <- app_assoc. cbn [app].
      split; [exact Hd|]. split; [|split].
      * rewrite digits_to_number_app, Hv.
        pose proof (Z.div_mod n 10 ltac:(lia)). lia.
      * apply Forall_app. split; [exact Hall|].
        repeat constructor; pose proof (Z.mod_pos_bound n 10 ltac:(lia)); lia.
      * destruct ds; discriminate.
Qed.

(** X8.  [number_to_digits(n)] returns a non-empty list of decimal digits
    and [digits_to_number] of that list is [abs(n)]: the sign is lost, the
    magnitude comes back. *)
Theorem digits_round_trip (n : Z) :
  exists ds,
    MathHelpers.number_to_digits n = Some ds
    /\ MathHelpers.digits_to_number ds = Z.abs n
    /\ Forall (fun d => 0 <= d <= 9) ds
    /\ ds <> [].
Proof.
  unfold MathHelpers.number_to_digits.
  destruct (decimal_spec (S (Z.abs_nat n)) (Z.abs n) [] ltac:(lia) ltac:(lia))
    as (ds & Hd & H). rewrite app_nil_r in Hd. eauto.
Qed.


(** X9.  [ensure_range] returns a value between [min_val] and [max_val]
    when [min_val <= max_val]; an integer already between them is returned
    unchanged; with [max_val < min_val], or when [int(value)] fails ([None],
    NaN, an infinity), it returns [min_val]. *)
Theorem ensure_range_bounds (value : pyval) (min_val max_val : Z) :
  (min_val <= max_val ->
   min_val <= Utils.ensure_range value min_val max_val <= max_val)
  /\ (forall z, value = PyInt z -> min_val <= z <= max_val ->
                Utils.ensure_range value min_val max_val = z)
  /\ (max_val < min_val -> Utils.ensure_range value min_val max_val = min_val)
  /\ (forall e, int_ value = Raise e ->
                Utils.ensure_range value min_val max_val = min_val).
Proof.
  unfold Utils.ensure_range. repeat split.
  - destruct (int_ value); cbn; lia.
  - destruct (int_ value); cbn; lia.
  - intros z -> Hz. cbn. lia.
  - intros H. destruct (int_ value); cbn; lia.
  - intros e ->. reflexivity.
Qed.

Lemma ensure_range_bounds_witness :
  0 <= Utils.ensure_range (PyInt 5000) 0 999 <= 999.
Proof. apply (proj1 (ensure_range_bounds (PyInt 5000) 0 999)). lia. Defined.



Lemma product_repeat (d : Z) (k : nat) : product (repeat d k) = d ^ Z.of_nat k.
Proof.
  induction k as [|k IH]; [reflexivity|].
  cbn [repeat]. unfold product in *. cbn [fold_right]. rewrite IH.
  rewrite Nat2Z.inj_succ, Z.pow_succ_r by lia. reflexivity.
Qed.

Lemma divide_out_spec (fuel : nat) :
  forall n d factors,
    2 <= d -> 1 <= n -> (Z.to_nat n < fuel)%nat ->
    exists k n',
      MathHelpers.divide_out fuel n d factors = Some (factors ++ repeat d k, n')
      /\ n = n' * d ^ Z.of_nat k
      /\ 1 <= n' <= n
      /\ ~ (d | n')
      /\ (k <> O -> (d | n)).
Proof.
  induction fuel as [|fuel IH]; intros n d factors Hd Hn Hf; [lia|].
  cbn [MathHelpers.divide_out].
  destruct (Z.eqb_spec (n mod d) 0) as [Hz|Hnz].
  - apply Z.mod_divide in Hz; [|lia].
    destruct Hz as [q Hq].
    assert (Hdiv : n / d = q) by (subst n; apply Z.div_mul; lia).
    assert (1 <= q) by nia.
    assert (q < n) by nia.
    rewrite Hdiv.
    destruct (IH q d (factors ++ [d]) Hd ltac:(lia) ltac:(lia))
      as (k & n' & Hdo & Hprod & Hrange & Hnd & _).
    exists (S k), n'. rewrite Hdo. rewrite <- app_assoc. cbn [app repeat].
    split; [reflexivity|].
    split; [rewrite Nat2Z.inj_succ, Z.pow_succ_r by lia; nia|].
    split; [lia|]. split; [exact Hnd|].
    intros _. exists q. exact Hq.
  - exists O, n. cbn [repeat]. rewrite app_nil_r.
    split; [reflexivity|]. split; [cbn; lia|]. split; [lia|].
    split; [|intros H; contradiction].
    intros Hdiv. apply Hnz. apply Z.mod_divide; [lia|exact Hdiv].
Qed.

Lemma no_divisor_prime (p d : Z) :
  1 < p -> p < d * d -> 1 <= d ->
  (forall q, 2 <= q < d -> ~ (q | p)) -> prime p.
Proof.
  intros Hp Hsq Hd Hno. apply prime_alt. split; [exact Hp|].
  intros q Hq [c Hc].
  destruct (Z_lt_le_dec q d) as [Hlt|Hge].
  - apply (Hno q); [lia|]. exists c. exact Hc.
  - assert (1 < c) by nia.
    assert (c < d) by nia.
    apply (Hno c); [lia|]. exists q. lia.
Qed.

Lemma prime_factors_loop_spec (fuel : nat) :
  forall n d factors,
    2 <= d -> 1 <= n ->
    (forall q, 2 <= q < d -> ~ (q | n)) ->
    (Z.to_nat (n - d) < fuel)%nat ->
    exists l,
      MathHelpers.prime_factors_loop fuel n d factors = Some (factors ++ l)
      /\ product l = n
      /\ Forall prime l
      /\ Forall (fun p => d <= p) l
      /\ StronglySorted Z.le l.
Proof.
  induction fuel as [|fuel IH]; intros n d factors Hd Hn Hno Hf; [lia|].
  cbn [MathHelpers.prime_factors_loop].
  destruct (Z.ltb_spec 1 n) as [H1|H1].
  2:{ exists []. rewrite app_nil_r. assert (n = 1) by lia. subst.
      repeat split; constructor. }
  destruct (divide_out_spec (S (Z.to_nat n)) n d factors Hd Hn ltac:(lia))
    as (k & n' & Hdo & Hprod & Hrange & Hnd & Hk).
  rewrite Hdo.
  assert (Hdprime : k <> O -> prime d).
  { intros Hk0. apply (no_divisor_prime d d); try lia; [nia|].
    intros q Hq Hqd. apply (Hno q Hq).
    apply Z.divide_trans with d; [exact Hqd|exact (Hk Hk0)]. }
  assert (Hno' : forall q, 2 <= q < d + 1 -> ~ (q | n')).
  { intros q Hq Hqn. destruct (Z.eq_dec q d) as [->|Hne]; [exact (Hnd Hqn)|].
    apply (Hno q); [lia|]. rewrite Hprod. apply Z.divide_mul_l. exact Hqn. }
  assert (Hrep : Forall prime (repeat d k)).
  { destruct k; [constructor|]. apply Forall_forall. intros x Hx.
    apply repeat_spec in Hx. subst. apply Hdprime. discriminate. }
  assert (Hrepd : Forall (fun p => d <= p) (repeat d k)).
  { apply Forall_forall. intros x Hx. apply repeat_spec in Hx. lia. }
  assert (Hsorted : forall l', Forall (fun p => d + 1 <= p) l' ->
                               StronglySorted Z.le l' ->
                               StronglySorted Z.le (repeat d k ++ l')).
  { intros l' Hl' Hs. clear - Hl' Hs. induction k as [|k IHk]; [exact Hs|].
    cbn [repeat app]. constructor; [exact IHk|].
    apply Forall_app. split.
    - apply Forall_forall. intros x Hx. apply repeat_spec in Hx. lia.
    - eapply Forall_impl; [|exact Hl']. cbn. intros; lia. }
  cbv zeta.
  destruct (Z.ltb_spec n' ((d + 1) * (d + 1))) as [Hsmall|Hbig].
  - destruct (Z.ltb_spec 1 n') as [Hn1|Hn1].
    + exists (repeat d k ++ [n']). rewrite app_assoc.
      split; [reflexivity|].
      assert (prime n') by (apply (no_divisor_prime n' (d + 1)); try lia; exact Hno').
      assert (d + 1 <= n').
      { destruct (Z_lt_le_dec n' (d + 1)) as [Hlt|]; [|assumption].
        exfalso. apply (Hno' n'); [lia|]. apply Z.divide_refl. }
      split; [rewrite product_app, product_repeat; cbn; lia|].
      split; [apply Forall_app; split; [exact Hrep|constructor; [assumption|constructor]]|].
      split; [apply Forall_app; split; [exact Hrepd|constructor; [lia|constructor]]|].
      apply Hsorted; [constructor; [lia|constructor]|].
      constructor; constructor.
    + exists (repeat d k). assert (n' = 1) by lia. subst n'.
      split; [reflexivity|].
      split; [rewrite product_repeat; lia|].
      split; [exact Hrep|]. split; [exact Hrepd|].
      rewrite <- (app_nil_r (repeat d k)). apply Hsorted; constructor.
  - destruct (IH n' (d + 1) (factors ++ repeat d k) ltac:(lia) ltac:(lia) Hno')
      as (l & Hl & Hpl & Hprime & Hlow & Hs).
    { assert (d + 1 <= n') by nia. lia. }
    exists (repeat d k ++ l). rewrite app_assoc.
    split; [exact Hl|].
    split; [rewrite product_app, product_repeat; lia|].
    split; [apply Forall_app; split; assumption|].
    split; [apply Forall_app; split;
            [exact Hrepd|eapply Forall_impl; [|exact Hlow]; cbn; intros; lia]|].
    apply Hsorted; assumption.
Qed.

(** X10.  [prime_factors(n)] returns the empty list for [n <= 1]; for
    [n >= 2] its loops end and it returns primes, in ascending order, whose
    product is [n]. *)
Theorem prime_factors_correct (n : Z) :
  (n <= 1 -> MathHelpers.prime_factors n = Some [])
  /\ (2 <= n ->
      exists l,
        MathHelpers.prime_factors n = Some l
        /\ product l = n
        /\ Forall prime l
        /\ StronglySorted Z.le l).
Proof.
  unfold MathHelpers.prime_factors. split.
  - intros H. cbn [MathHelpers.prime_factors_loop].
    destruct (Z.ltb_spec 1 n); [lia|reflexivity].
  - intros H.
    destruct (prime_factors_loop_spec (S (Z.to_nat n)) n 2 [])
      as (l & Hl & Hp & Hprime & _ & Hs); try lia.
    exists l. auto.
Qed.

Lemma prime_factors_correct_witness :
  exists l,
    MathHelpers.prime_factors 360 = Some l
    /\ product l = 360
    /\ Forall prime l
    /\ StronglySorted Z.le l.
Proof. apply (proj2 (prime_factors_correct 360)). lia. Defined.


Lemma fold_mod_range (l : list Z) :
  forall r0, 0 <= r0 <= 999 ->
             0 <= fold_left (fun result i => (result * i) mod 1000) l r0 <= 999.
Proof.
  induction l as [|x l IH]; intros r0 H; cbn [fold_left]; [exact H|].
  apply IH. apply trunc_mod_range.
Qed.

Lemma permutation_range (n : Z) (r : option Z) :
  0 <= CombinatoricsSolver._permutation n r <= 999.
Proof.
  unfold CombinatoricsSolver._permutation.
  destruct (n <? match r with Some r0 => r0 | None => n end); [lia|].
  apply fold_mod_range. lia.
Qed.

Lemma factorial_mod_1000_range (n : Z) :
  0 <= CombinatoricsSolver._factorial_mod_1000 n <= 999.
Proof. apply fold_mod_range. lia. Qed.

Lemma combination_loop_range (n : Z) (idx : list Z) :
  forall r0 v, 0 <= r0 <= 999 ->
               CombinatoricsSolver.combination_loop n idx r0 = Ok v ->
               0 <= v <= 999.
Proof.
  induction idx as [|i rest IH]; intros r0 v H; cbn [CombinatoricsSolver.combination_loop].
  - intros [= <-]. exact H.
  - destruct (CombinatoricsSolver.pow_neg1 (i + 1) 1000) as [inv|e]; cbn [bind];
      [|discriminate].
    apply IH. apply trunc_mod_range.
Qed.

Lemma combination_range (n r v : Z) :
  CombinatoricsSolver._combination n r = Ok v -> 0 <= v <= 999.
Proof.
  unfold CombinatoricsSolver._combination.
  destruct (n <? r); [intros [= <-]; lia|].
  apply combination_loop_range. lia.
Qed.




Lemma heuristics_range (problem : BaseSolver.MathProblem) (v : Z) :
  Combinatorics._apply_combinatorics_heuristics problem = Ok v -> 0 <= v <= 999.
Proof.
  unfold Combinatorics._apply_combinatorics_heuristics.
  destruct (Combinatorics.last1 _) as [n|]; [|intros [= <-]; lia].
  destruct (_ || _).
  { intros [= <-]. apply permutation_range. }
  destruct (if _ : bool then _ else None) as [r|].
  { apply combination_range. }
  destruct (contains _ _).
  - destruct (Combinatorics.last2 _) as [r|].
    + apply combination_range.
    + intros [= <-]. apply factorial_mod_1000_range.
  - intros [= <-]. apply trunc_mod_range.
Qed.

(** X11.  [CombinatoricsSolver.solve] returns an integer between 0 and 999
    on every text and raises nothing, whether or not the partition table can
    be allocated. *)
Theorem combinatorics_solve_in_range (fits : Z -> bool) (question : text) :
  0 <= Combinatorics.solve fits question <= 999.
Proof.
  unfold Combinatorics.solve.
  destruct (BaseSolver.preprocess question) as [problem|e]; cbn [bind try_except];
    [|lia].
  destruct (Combinatorics._solve_combinatorics_problem fits _) as [result|].
  - cbn [try_except]. apply ensure_valid_answer_range.
  - destruct (Combinatorics._apply_combinatorics_heuristics problem) as [v|e] eqn:E;
      cbn [try_except]; [|lia].
    apply (heuristics_range problem v E).
Qed.


Lemma pow_neg1_1 : CombinatoricsSolver.pow_neg1 1 1000 = Ok 1.
Proof. reflexivity. Qed.
Lemma pow_neg1_2 : CombinatoricsSolver.pow_neg1 2 1000 = Raise ValueError.
Proof. reflexivity. Qed.

(** X12.  For [0 <= r <= n], [_combination(n, r)] returns 1 when
    [min(r, n - r)] is 0, returns [n % 1000] when it is 1, and raises
    [ValueError] when it is 2 or more. *)
Theorem combination_cases (n r : Z) :
  0 <= r <= n ->
  (Z.min r (n - r) = 0 -> CombinatoricsSolver._combination n r = Ok 1)
  /\ (Z.min r (n - r) = 1 -> CombinatoricsSolver._combination n r = Ok (n mod 1000))
  /\ (2 <= Z.min r (n - r) -> CombinatoricsSolver._combination n r = Raise ValueError).
Proof.
  intros H. unfold CombinatoricsSolver._combination.
  destruct (Z.ltb_spec n r); [lia|]. cbv zeta.
  split; [|split]; intros Hm.
  - rewrite Hm. reflexivity.
  - rewrite Hm. rewrite range_cons, range_nil by lia.
    cbn [CombinatoricsSolver.combination_loop].
    change (CombinatoricsSolver.pow_neg1 (0 + 1) 1000) with (@Ok Z 1).
    cbn [bind]. rewrite Z.mul_1_l, Z.sub_0_r, Z.mul_1_r, Z.mod_mod by lia.
    reflexivity.
  - rewrite (range_cons 0) by lia. rewrite (range_cons (0 + 1)) by lia.
    cbn [CombinatoricsSolver.combination_loop].
    change (CombinatoricsSolver.pow_neg1 (0 + 1) 1000) with (@Ok Z 1).
    change (CombinatoricsSolver.pow_neg1 (0 + 1 + 1) 1000) with (@Raise Z ValueError).
    reflexivity.
Qed.

Lemma combination_cases_witness :
  CombinatoricsSolver._combination 10 3 = Raise ValueError.
Proof.
  apply (proj2 (proj2 (combination_cases 10 3 ltac:(lia)))).
  vm_compute. discriminate.
Defined.

(** X13.  [_ensure_valid_answer] returns an integer between 0 and 999 for
    every value; it returns 0 for [None], NaN and the infinities; for an
    integer below 2^53 in absolute value it returns [z % 1000].  A larger
    integer goes through [float] first: 2^53 + 1 gives 992, not 993. *)
Theorem ensure_valid_answer_total (v : pyval) :
  0 <= BaseSolver._ensure_valid_answer v <= 999
  /\ BaseSolver._ensure_valid_answer PyNone = 0
  /\ BaseSolver._ensure_valid_answer (PyFloat NaN) = 0
  /\ BaseSolver._ensure_valid_answer (PyFloat PosInf) = 0
  /\ (forall z, Z.abs z < 2 ^ 53 ->
                BaseSolver._ensure_valid_answer (PyInt z) = z mod 1000)
  /\ BaseSolver._ensure_valid_answer (PyInt (2 ^ 53 + 1)) = 992.
Proof.
  split; [apply ensure_valid_answer_range|].
  repeat (split; [reflexivity|]).
  split; [intros z Hz; apply ensure_valid_answer_int; exact Hz|].
  vm_compute. reflexivity.
Qed.

Lemma ensure_valid_answer_total_witness :
  BaseSolver._ensure_valid_answer (PyInt (-7)) = (-7) mod 1000.
Proof.
  apply (proj1 (proj2 (proj2 (proj2 (proj2 (ensure_valid_answer_total PyNone)))))).
  vm_compute. reflexivity.
Defined.

(* ================================================================== *)
(** * The dispatcher's statistics *)

Lemma usage_total_incr (n : SolverName) (s : Stats) :
  usage_total (incr_usage n s) = usage_total s + 1.
Proof.
  unfold usage_total, incr_usage. cbn [solver_usage].
  destruct n; cbn [name_eqb]; lia.
Qed.

Lemma name_eqb_refl (n : SolverName) : name_eqb n n = true.
Proof. destruct n; reflexivity. Qed.

Lemma solve_problem_stats
      (LatexExpression : Type) (parse_latex : text -> list LatexExpression)
      (solvers : SolverName -> text -> Memo.Prog (outcome pyval))
      (t : text) (st : State) :
  stats (snd (solve_problem LatexExpression parse_latex solvers t st))
  = match fst (Memo.run (solvers (_identify_problem_type t) t) (caches st)) with
    | Ok PyNone | Raise _ =>
        incr_usage (_identify_problem_type t) (incr_processed (stats st))
    | Ok _ =>
        incr_successful
          (incr_usage (_identify_problem_type t) (incr_processed (stats st)))
    end.
Proof.
  unfold solve_problem, catch, bindM, modify, solve, ret. cbn [stats caches].
  destruct (Memo.run (solvers (_identify_problem_type t) t) (caches st))
    as [[v|e] cs]; cbn [fst snd stats]; [|reflexivity].
  destruct v as [|z|f]; cbn [snd stats caches]; try reflexivity.
  destruct (negb (name_eqb (_identify_problem_type t) pattern));
    cbn [snd stats caches]; [|reflexivity].
  destruct (Memo.run (solvers pattern t) cs) as [[v|e] cs'];
    [destruct v|]; reflexivity.
Qed.

Lemma solve_problem_counts
      (LatexExpression : Type) (parse_latex : text -> list LatexExpression)
      (solvers : SolverName -> text -> Memo.Prog (outcome pyval))
      (t : text) (st : State) (s' : Stats) :
  s' = stats (snd (solve_problem LatexExpression parse_latex solvers t st)) ->
  problems_processed s' = problems_processed (stats st) + 1
  /\ usage_total s' = usage_total (stats st) + 1
  /\ solver_usage s' (_identify_problem_type t)
     = solver_usage (stats st) (_identify_problem_type t) + 1
  /\ successful_solves (stats st) <= successful_solves s'
     <= successful_solves (stats st) + 1.
Proof.
  intros ->. rewrite solve_problem_stats.
  generalize (_identify_problem_type t) as ty. intros ty.
  pose proof (usage_total_incr ty (incr_processed (stats st))) as Hu.
  assert (Hp : usage_total (incr_processed (stats st)) = usage_total (stats st))
    by reflexivity.
  assert (Hi : forall s, usage_total (incr_successful s) = usage_total s)
    by reflexivity.
  destruct (fst (Memo.run (solvers ty t) (caches st))) as [[|z|f]|e];
    rewrite ?Hi, Hu, Hp;
    cbn [incr_successful incr_usage incr_processed problems_processed
         solver_usage successful_solves];
    rewrite name_eqb_refl; repeat split; lia.
Qed.

(** X14.  After [solve_problem] has been called on each text of a list,
    starting from a fresh solver: there is one answer per text,
    [problems_processed] is the number of texts and so is the sum of the
    six [solver_usage] counters, [successful_solves] lies between 0 and
    [problems_processed], and the [success_rate] of [get_statistics] lies
    between 0 and 1.  It holds whatever the solvers return or raise. *)
Theorem statistics_invariant
        (LatexExpression : Type) (parse_latex : text -> list LatexExpression)
        (solvers : SolverName -> text -> Memo.Prog (outcome pyval))
        (texts : list text) :
  let r := solve_all LatexExpression parse_latex solvers texts initial in
  let s := stats (snd r) in
  List.length (fst r) = List.length texts
  /\ problems_processed s = Z.of_nat (List.length texts)
  /\ usage_total s = Z.of_nat (List.length texts)
  /\ 0 <= successful_solves s <= problems_processed s
  /\ (0 <= success_rate s <= 1)%Q.
Proof.
  assert (Hgen : forall st,
    List.length (fst (solve_all LatexExpression parse_latex solvers texts st))
    = List.length texts
    /\ problems_processed
         (stats (snd (solve_all LatexExpression parse_latex solvers texts st)))
       = problems_processed (stats st) + Z.of_nat (List.length texts)
    /\ usage_total
         (stats (snd (solve_all LatexExpression parse_latex solvers texts st)))
       = usage_total (stats st) + Z.of_nat (List.length texts)
    /\ successful_solves (stats st)
       <= successful_solves
            (stats (snd (solve_all LatexExpression parse_latex solvers texts st)))
       <= successful_solves (stats st) + Z.of_nat (List.length texts)).
  { induction texts as [|t rest IH]; intros st.
    - cbn [solve_all fst snd List.length]. repeat split; lia.
    - cbn [solve_all].
      pose proof (solve_problem_counts LatexExpression parse_latex solvers t st
                    _ eq_refl) as (Hp & Hu & _ & Hs).
      destruct (solve_problem LatexExpression parse_latex solvers t st)
        as [a st'].
      cbn [snd] in Hp, Hu, Hs.
      specialize (IH st').
      destruct (solve_all LatexExpression parse_latex solvers rest st')
        as [answers st''].
      cbn [fst snd List.length] in *.
      destruct IH as (Hl & Hp' & Hu' & Hs'). repeat split; lia. }
  intros r s. destruct (Hgen initial) as (Hl & Hp & Hu & Hs).
  fold r in Hl, Hp, Hu, Hs. fold s in Hp, Hu, Hs.
  change (problems_processed (stats initial)) with 0 in Hp.
  change (usage_total (stats initial)) with 0 in Hu.
  change (successful_solves (stats initial)) with 0 in Hs.
  split; [exact Hl|]. split; [exact Hp|]. split; [exact Hu|].
  split; [lia|].
  unfold success_rate.
  assert (Hpos : (0 < inject_Z (Z.max 1 (problems_processed s)))%Q).
  { rewrite <- (Zlt_Qlt 0). lia. }
  split.
  - apply Qle_shift_div_l; [exact Hpos|].
    rewrite Qmult_0_l, <- (Zle_Qle 0). lia.
  - apply Qle_shift_div_r; [exact Hpos|].
    rewrite Qmult_1_l, <- Zle_Qle. lia.
Qed.

(** ** [pattern_solver]: the factorial and divisibility handlers *)

Lemma product_range_mod_zero (k : nat) :
  product (range 1 (16 + Z.of_nat k)) mod 1000 = 0.
Proof.
  induction k as [|k IH].
  - vm_compute. reflexivity.
  - replace (16 + Z.of_nat (S k)) with (16 + Z.of_nat k + 1) by lia.
    rewrite range_snoc by lia. rewrite product_app.
    rewrite Z.mul_mod, IH by lia. reflexivity.
Qed.

Lemma fact_mod_1000 (n : Z) :
  15 <= n -> Z.of_nat (fact (Z.to_nat n)) mod 1000 = 0.
Proof.
  intros H. rewrite <- product_range_fact.
  replace (Z.of_nat (Z.to_nat n) + 1) with (16 + Z.of_nat (Z.to_nat (n - 15)))
    by lia.
  apply product_range_mod_zero.
Qed.

Lemma pattern_factorial_mod_zero (n : Z) :
  15 <= n -> PatternSolver._factorial_mod_1000 n = 0.
Proof.
  intros H. unfold PatternSolver._factorial_mod_1000.
  rewrite fold_mul_mod_reduced.
  2:{ rewrite range_cons by lia. discriminate. }
  rewrite Z.mul_1_l.
  replace (Z.min (n + 1) 1000)
    with (16 + Z.of_nat (Z.to_nat (Z.min (n + 1) 1000 - 16))) by lia.
  apply product_range_mod_zero.
Qed.

(** X15.  [PatternSolver._handle_factorial] on the extracted value [q]:
    for [int(q) >= 0] it returns [int(q)! % 1000], on either side of its
    switch at 20 to the loop that stops before 1000, and that is 0 from 15
    on; for a negative [int(q)], for NaN and for an empty list of extracted
    values it returns [None]. *)
Theorem pattern_factorial_correct (q : Q) (rest : list pyfloat) :
  (0 <= trunc q ->
   PatternSolver._handle_factorial (Finite q :: rest)
   = Some (Z.of_nat (fact (Z.to_nat (trunc q))) mod 1000))
  /\ (15 <= trunc q ->
      PatternSolver._handle_factorial (Finite q :: rest) = Some 0)
  /\ (trunc q < 0 -> PatternSolver._handle_factorial (Finite q :: rest) = None)
  /\ PatternSolver._handle_factorial (NaN :: rest) = None
  /\ PatternSolver._handle_factorial [] = None.
Proof.
  assert (Hnonneg : 0 <= trunc q ->
   PatternSolver._handle_factorial (Finite q :: rest)
   = Some (Z.of_nat (fact (Z.to_nat (trunc q))) mod 1000)).
  { intros H. unfold PatternSolver._handle_factorial, PatternSolver.factorial.
    cbn [int_ bind].
    destruct (Z.ltb_spec 20 (trunc q)) as [Hbig|Hsmall]; cbn [try_except].
    - rewrite pattern_factorial_mod_zero, fact_mod_1000 by lia. reflexivity.
    - destruct (Z.ltb_spec (trunc q) 0); [lia|]. reflexivity. }
  split; [exact Hnonneg|]. split; [|split; [|split; reflexivity]].
  - intros H. rewrite Hnonneg, fact_mod_1000 by lia. reflexivity.
  - intros H. unfold PatternSolver._handle_factorial, PatternSolver.factorial.
    cbn [int_ bind].
    destruct (Z.ltb_spec 20 (trunc q)); [lia|].
    destruct (Z.ltb_spec (trunc q) 0); [|lia]. reflexivity.
Qed.

Lemma pattern_factorial_correct_witness :
  PatternSolver._handle_factorial [Finite (5 # 1)]
  = Some (Z.of_nat (fact (Z.to_nat (trunc (5 # 1)))) mod 1000).
Proof.
  apply (proj1 (pattern_factorial_correct (5 # 1) [])). vm_compute. discriminate.
Defined.

Lemma gcd_loop_sign (fuel : nat) :
  forall a b, b <> 0 -> (Z.abs_nat b < fuel)%nat ->
    exists g, MathHelpers.gcd_loop fuel a b = Some g
              /\ g = Z.sgn b * Z.gcd a b.
Proof.
  induction fuel as [|fuel IH]; intros a b Hb Hf; [lia|].
  cbn [MathHelpers.gcd_loop].
  destruct (Z.eqb_spec b 0) as [|_]; [contradiction|].
  assert (Hbound : Z.abs (a mod b) < Z.abs b).
  { destruct (Z_lt_le_dec 0 b).
    - pose proof (Z.mod_pos_bound a b ltac:(lia)). lia.
    - pose proof (Z.mod_neg_bound a b ltac:(lia)). lia. }
  assert (Hg : Z.gcd b (a mod b) = Z.gcd a b).
  { rewrite Z.gcd_comm. rewrite Z.gcd_mod by exact Hb. apply Z.gcd_comm. }
  destruct (Z.eq_dec (a mod b) 0) as [Hz|Hnz].
  - rewrite Hz in *. destruct fuel as [|fuel]; [lia|].
    cbn [MathHelpers.gcd_loop]. cbn [Z.eqb]. exists b. split; [reflexivity|].
    rewrite <- Hg, Z.gcd_0_r. symmetry. rewrite Z.mul_comm. apply Z.abs_sgn.
  - destruct (IH b (a mod b) Hnz ltac:(lia)) as (g & Hgl & Hgv).
    exists g. split; [exact Hgl|]. rewrite Hgv, Hg. f_equal.
    destruct (Z_lt_le_dec 0 b).
    + pose proof (Z.mod_pos_bound a b ltac:(lia)). lia.
    + pose proof (Z.mod_neg_bound a b ltac:(lia)). lia.
Qed.

(** X16.  [PatternSolver._handle_divisibility] on a problem with at least
    two numbers, the first two finite: with [a] and [b] their integer parts, the
    loop of [_gcd] ends and the result is [a % 1000] when [b = 0], and
    [sign(b) * gcd(a, b) % 1000] otherwise: the gcd for a positive [b], and
    1000 minus the gcd (when that is not a multiple of 1000) for a negative
    [b], because the loop has no final [abs]. *)
Theorem pattern_divisibility_gcd (x y : Q) (rest : list pyfloat) :
  let a := trunc x in
  let b := trunc y in
  PatternSolver._handle_divisibility (Finite x :: Finite y :: rest)
  = Some (Some ((if b =? 0 then a else Z.sgn b * Z.gcd a b) mod 1000))
  /\ (0 < b ->
      PatternSolver._handle_divisibility (Finite x :: Finite y :: rest)
      = Some (Some (Z.gcd a b mod 1000)))
  /\ (b < 0 -> Z.gcd a b mod 1000 <> 0 ->
      PatternSolver._handle_divisibility (Finite x :: Finite y :: rest)
      = Some (Some (1000 - Z.gcd a b mod 1000))).
Proof.
  intros a b.
  assert (Hmain : PatternSolver._handle_divisibility (Finite x :: Finite y :: rest)
    = Some (Some ((if b =? 0 then a else Z.sgn b * Z.gcd a b) mod 1000))).
  { unfold PatternSolver._handle_divisibility, PatternSolver._gcd.
    cbn [int_ bind]. fold a. fold b.
    destruct (Z.eqb_spec b 0) as [E|Hb].
    - rewrite E. reflexivity.
    - destruct (gcd_loop_sign (S (Z.abs_nat b)) a b Hb ltac:(lia))
        as (g & -> & ->). reflexivity. }
  split; [exact Hmain|]. split.
  - intros Hb. rewrite Hmain.
    destruct (Z.eqb_spec b 0); [lia|].
    rewrite Z.sgn_pos by lia. rewrite Z.mul_1_l. reflexivity.
  - intros Hb Hnz. rewrite Hmain.
    destruct (Z.eqb_spec b 0); [lia|].
    rewrite Z.sgn_neg by lia.
    replace (-1 * Z.gcd a b) with (- Z.gcd a b) by lia.
    rewrite Z.mod_opp_l_nz by (lia || exact Hnz). reflexivity.
Qed.

Lemma pattern_divisibility_gcd_witness :
  PatternSolver._handle_divisibility [Finite (4 # 1); Finite (-6 # 1)]
  = Some (Some (1000 - Z.gcd (trunc (4 # 1)) (trunc (-6 # 1)) mod 1000)).
Proof.
  apply (proj2 (proj2 (pattern_divisibility_gcd (4 # 1) (-6 # 1) []))).
  - vm_compute. reflexivity.
  - vm_compute. discriminate.
Defined.

(** ** [sequence_solver]: the Fibonacci generator *)

Lemma generate_fibonacci_loop (k : nat) :
  fold_left (fun ab (_ : Z) => (snd ab, (fst ab + snd ab) mod 1000))
            (range 2 (2 + Z.of_nat k)) (0, 1)
  = (fib k mod 1000, fib (S k) mod 1000).
Proof.
  induction k as [|k IH].
  - rewrite range_nil by lia. reflexivity.
  - replace (2 + Z.of_nat (S k)) with (2 + Z.of_nat k + 1) by lia.
    rewrite range_snoc by lia. rewrite fold_left_app, IH. cbn [fold_left fst snd].
    f_equal. rewrite <- Z.add_mod by lia.
    change (fib (S (S k))) with (fib (S k) + fib k).
    f_equal. lia.
Qed.

Lemma fibonacci_mod_fold (m : Z) (l : list Z) :
  m <> 0 ->
  forall ab,
    fold_left (fun acc (_ : Z) =>
                 ab <- acc ;;
                 s <- mod_ (fst ab + snd ab) m ;;
                 Ok (snd ab, s))%py l (Ok ab)
    = Ok (fold_left (fun ab (_ : Z) => (snd ab, (fst ab + snd ab) mod m)) l ab).
Proof.
  intros Hm. induction l as [|x l IH]; intros ab; cbn [fold_left]; [reflexivity|].
  assert (E : mod_ (fst ab + snd ab) m = Ok ((fst ab + snd ab) mod m)).
  { unfold mod_. destruct (Z.eqb_spec m 0); [contradiction|reflexivity]. }
  cbn [bind]. rewrite E. cbn [bind]. apply IH.
Qed.

(** X17.  [SequenceSolver._generate_fibonacci(n)] is the [n]-th Fibonacci
    number modulo 1000 for [n >= 0]; a negative [n] is returned as it is,
    so outside 0..999; and for every [n] it is what
    [math_helpers.fibonacci_mod(n, 1000)] returns. *)
Theorem generate_fibonacci_correct (n : Z) :
  (0 <= n -> SequenceSolver._generate_fibonacci n = fib (Z.to_nat n) mod 1000)
  /\ (n < 0 -> SequenceSolver._generate_fibonacci n = n)
  /\ MathHelpers.fibonacci_mod n 1000 = Ok (SequenceSolver._generate_fibonacci n).
Proof.
  split; [|split].
  - intros H. unfold SequenceSolver._generate_fibonacci.
    destruct (Z.leb_spec n 1) as [Hs|Hb].
    + assert (n = 0 \/ n = 1) as [-> | ->] by lia; reflexivity.
    + replace (n + 1) with (2 + Z.of_nat (Z.to_nat (n - 1))) by lia.
      rewrite generate_fibonacci_loop. cbn [snd].
      replace (S (Z.to_nat (n - 1))) with (Z.to_nat n) by lia. reflexivity.
  - intros H. unfold SequenceSolver._generate_fibonacci.
    destruct (Z.leb_spec n 1); [reflexivity|lia].
  - unfold MathHelpers.fibonacci_mod, SequenceSolver._generate_fibonacci.
    destruct (Z.leb_spec n 1); [reflexivity|].
    rewrite fibonacci_mod_fold by lia. reflexivity.
Qed.

Lemma generate_fibonacci_correct_witness :
  SequenceSolver._generate_fibonacci 30 = fib (Z.to_nat 30) mod 1000.
Proof. apply (proj1 (generate_fibonacci_correct 30)). lia. Defined.

(** ** [math_helpers]: the Chinese remainder theorem *)

Import Invariants.

Lemma fold_mul_product (l : list Z) : forall a, fold_left Z.mul l a = a * product l.
Proof.
  induction l as [|x l IH]; intros a; cbn [fold_left product fold_right]; [lia|].
  rewrite IH. unfold product. lia.
Qed.

Lemma product_pos (l : list Z) : Forall (fun m => 1 < m) l -> 0 < product l.
Proof.
  induction 1 as [|x l Hx _ IH]; cbn [product fold_right]; [lia|].
  fold (product l). nia.
Qed.



Lemma product_split (l1 l2 : list Z) (M : Z) :
  M <> 0 -> product (l1 ++ M :: l2) / M = product (l1 ++ l2).
Proof.
  intros HM. rewrite !product_app. cbn [product fold_right]. fold (product l2).
  replace (product l1 * (M * product l2)) with (product l1 * product l2 * M)
    by lia.
  apply Z.div_mul. exact HM.
Qed.

Lemma product_split_mul (l1 l2 : list Z) (M : Z) :
  product (l1 ++ M :: l2) = M * product (l1 ++ l2).
Proof.
  rewrite !product_app. cbn [product fold_right]. fold (product l2). lia.
Qed.





Lemma map_snd_combine (rs ms : list Z) :
  List.length rs = List.length ms -> map snd (combine rs ms) = ms.
Proof.
  revert ms. induction rs as [|r rs IH]; intros [|m ms] H; cbn in *;
    try discriminate; [reflexivity|]. f_equal. apply IH. lia.
Qed.




Lemma in_divides_product (l : list Z) (m : Z) : In m l -> (m | product l).
Proof.
  intros Hin. destruct (in_split _ _ Hin) as (l1 & l2 & ->).
  rewrite product_split_mul. exists (product (l1 ++ l2)). lia.
Qed.

Lemma crt_fold_raises (P : Z) (rms : list (Z * Z)) :
  Forall (fun rm => 1 < snd rm /\ 0 < P / snd rm) rms ->
  forall acc,
    (acc = Raise TypeError \/ exists t, acc = Ok t) ->
    fold_left (MathHelpers.crt_step P) rms acc = Raise TypeError
    \/ ((exists t, fold_left (MathHelpers.crt_step P) rms acc = Ok t)
        /\ Forall (fun rm => Z.gcd (P / snd rm) (snd rm) = 1) rms).
Proof.
  induction 1 as [|[r m] rms [Hm Hp] _ IH]; intros acc Hacc; cbn [fold_left].
  - destruct Hacc as [->|Ht]; [left; reflexivity|right; split; [exact Ht|constructor]].
  - cbn [snd] in Hm, Hp.
    destruct Hacc as [->|[t ->]].
    + destruct (IH (MathHelpers.crt_step P (Raise TypeError) (r, m)))
        as [E|[[t E] _]]; [left; reflexivity|left; exact E|].
      exfalso. clear IH. revert E. change (MathHelpers.crt_step P (Raise TypeError) (r, m))
        with (@Raise Z TypeError).
      clear. induction rms as [|x rms IH]; cbn [fold_left]; [discriminate|exact IH].
    + unfold MathHelpers.crt_step at 2 4, MathHelpers.floordiv. cbn [fst snd bind].
      destruct (Z.eqb_spec m 0); [lia|]. cbn [bind].
      destruct (Z.eq_dec (Z.gcd (P / m) m) 1) as [Hg|Hg].
      * destruct (mod_inverse_coprime (P / m) m Hp Hm Hg) as (v & -> & _ & _).
        cbn [bind].
        destruct (IH (Ok (t + r * (P / m) * v))) as [E|[E Hall]];
          [right; eauto|left; exact E|].
        right. split; [exact E|]. constructor; [exact Hg|exact Hall].
      * rewrite (mod_inverse_not_coprime (P / m) m Hp Hm Hg). cbn [bind].
        left. clear. induction rms as [|x rms IH]; cbn [fold_left];
          [reflexivity|exact IH].
Qed.

Lemma coprime_to_rest_pairwise (l : list Z) :
  (forall l1 M l2, l = l1 ++ M :: l2 -> Z.gcd (product (l1 ++ l2)) M = 1) ->
  pairwise_coprime l.
Proof.
  unfold pairwise_coprime. induction l as [|a l IH]; intros H; constructor.
  - apply Forall_forall. intros b Hb.
    pose proof (H [] a l eq_refl) as Hg. cbn [app] in Hg.
    pose proof (Z.gcd_nonneg a b) as Hnn.
    assert (Hd : (Z.gcd a b | 1)).
    { rewrite <- Hg. apply Z.gcd_greatest.
      - apply Z.divide_trans with b; [apply Z.gcd_divide_r|].
        apply in_divides_product. exact Hb.
      - apply Z.gcd_divide_l. }
    apply Z.divide_1_r_nonneg in Hd; [exact Hd|exact Hnn].
  - apply IH. intros l1 M l2 E.
    pose proof (H (a :: l1) M l2 ltac:(rewrite E; reflexivity)) as Hg.
    cbn [app product fold_right] in Hg. fold (product (l1 ++ l2)) in Hg.
    pose proof (Z.gcd_nonneg (product (l1 ++ l2)) M) as Hnn.
    assert (Hd : (Z.gcd (product (l1 ++ l2)) M | 1)).
    { rewrite <- Hg. apply Z.gcd_greatest.
      - apply Z.divide_trans with (product (l1 ++ l2)); [apply Z.gcd_divide_l|].
        exists a. lia.
      - apply Z.gcd_divide_r. }
    apply Z.divide_1_r_nonneg in Hd; [exact Hd|exact Hnn].
Qed.

(** X19.  [chinese_remainder] on moduli above 1 that are not pairwise
    coprime returns no [None]: [mod_inverse] gives [None] for one of them
    and the product with it raises [TypeError]. *)
Theorem chinese_remainder_not_coprime (remainders moduli : list Z) :
  moduli <> [] ->
  List.length remainders = List.length moduli ->
  Forall (fun m => 1 < m) moduli ->
  ~ pairwise_coprime moduli ->
  MathHelpers.chinese_remainder remainders moduli = Raise TypeError.
Proof.
  intros Hne Hlen Hbig Hnot.
  pose proof (map_snd_combine remainders moduli Hlen) as Hms.
  assert (HP : 0 < product moduli) by (apply product_pos; exact Hbig).
  assert (Hpre : Forall (fun rm => 1 < snd rm /\ 0 < product moduli / snd rm)
                        (combine remainders moduli)).
  { apply Forall_forall. intros [r m] Hin. cbn [snd].
    apply in_combine_r in Hin.
    assert (Hm : 1 < m) by (rewrite Forall_forall in Hbig; apply Hbig; exact Hin).
    split; [exact Hm|].
    apply Z.div_str_pos. split; [lia|].
    apply Z.divide_pos_le; [exact HP|]. apply in_divides_product. exact Hin. }
  unfold MathHelpers.chinese_remainder.
  destruct moduli as [|m0 rest]; [contradiction|].
  rewrite fold_mul_product. cbn [bind].
  change (m0 * product rest) with (product (m0 :: rest)).
  destruct (crt_fold_raises (product (m0 :: rest)) _ Hpre (Ok 0))
    as [E|[_ Hall]]; [right; eauto|rewrite E; reflexivity|].
  exfalso. apply Hnot. apply coprime_to_rest_pairwise.
  intros l1 M l2 E.
  assert (HM : 1 < M).
  { rewrite Forall_forall in Hbig. apply Hbig. rewrite E.
    apply in_or_app. right. left. reflexivity. }
  rewrite <- (product_split l1 l2 M) by lia. rewrite <- E.
  rewrite Forall_forall in Hall.
  assert (Hin : In M (map snd (combine remainders (m0 :: rest)))).
  { rewrite Hms, E. apply in_or_app. right. left. reflexivity. }
  apply in_map_iff in Hin. destruct Hin as ([r m] & Hsnd & Hin).
  cbn [snd] in Hsnd. subst m. apply (Hall (r, M) Hin).
Qed.

Lemma chinese_remainder_not_coprime_witness :
  MathHelpers.chinese_remainder [1; 3] [4; 6] = Raise TypeError.
Proof.
  apply chinese_remainder_not_coprime.
  - discriminate.
  - reflexivity.
  - repeat constructor.
  - unfold pairwise_coprime. intros H. inversion H as [|? ? Hall _]; subst.
    inversion Hall as [|? ? Hg _]; subst. vm_compute in Hg. discriminate.
Defined.

(** ** [base_solver]: cleaning and preprocessing *)

Lemma no_adj_cons (R : ascii -> ascii -> bool) (a : ascii) (s : text) :
  (forall d, hd_error s = Some d -> R a d = false) -> no_adj R s ->
  no_adj R (a :: s).
Proof.
  intros Hd Hs. destruct s as [|b s]; [exact I|].
  split; [apply Hd; reflexivity|exact Hs].
Qed.

Lemma no_adj_tail (R : ascii -> ascii -> bool) (a : ascii) (s : text) :
  no_adj R (a :: s) -> no_adj R s.
Proof. destruct s as [|b s]; [intros; exact I|intros [_ H]; exact H]. Qed.

Lemma no_adj_head (R : ascii -> ascii -> bool) (a b : ascii) (s : text) :
  no_adj R (a :: b :: s) -> R a b = false.
Proof. intros [H _]. exact H. Qed.

Lemma no_adj_suffix (R : ascii -> ascii -> bool) (w s : text) :
  no_adj R (w ++ s) -> no_adj R s.
Proof.
  induction w as [|a w IH]; [auto|]. intros H. apply IH.
  apply (no_adj_tail R a). exact H.
Qed.

Lemma no_adj_prefix (R : ascii -> ascii -> bool) (p w : text) :
  no_adj R (p ++ w) -> no_adj R p.
Proof.
  induction p as [|a p IH]; [intros; exact I|]. intros H.
  apply no_adj_cons.
  - intros d Hd. destruct p as [|b p]; [discriminate|].
    injection Hd as <-. exact (no_adj_head R a b _ H).
  - apply IH. apply (no_adj_tail R a). exact H.
Qed.

Lemma starts_with_two (x y c : ascii) (s : text) :
  starts_with [x; y] (c :: s) = true ->
  c = x /\ exists s', s = y :: s'.
Proof.
  unfold starts_with. cbn [strip_prefix].
  destruct (Ascii.eqb_spec x c) as [->|]; [|discriminate].
  destruct s as [|d s]; [discriminate|].
  destruct (Ascii.eqb_spec y d) as [->|]; [|discriminate].
  intros _. split; [reflexivity|]. eauto.
Qed.

Lemma starts_with_two_refl (x y : ascii) (s : text) :
  starts_with [x; y] (x :: y :: s) = true.
Proof. unfold starts_with. cbn [strip_prefix]. rewrite !Ascii.eqb_refl. reflexivity. Qed.

(** Replacing the pair [x y] by [sp], a character that [R] relates to
    nothing: if the only [R]-neighbours of the text are such pairs, the
    result has no [R]-neighbours. *)
Lemma replace_pair_no_adj (R : ascii -> ascii -> bool) (x y sp : ascii) :
  (forall a, R a sp = false) -> (forall a, R sp a = false) ->
  forall s,
    (no_adj (fun a b => R a b && negb (pair_is x y a b)) s ->
     no_adj R (replace_aux [x; y] [sp] s 0)
     /\ forall d, hd_error (replace_aux [x; y] [sp] s 0) = Some d ->
                  d = sp \/ hd_error s = Some d)
    /\ (no_adj (fun a b => R a b && negb (pair_is x y a b)) (tl s) ->
        no_adj R (replace_aux [x; y] [sp] s 1)).
Proof.
  intros Hr Hl. induction s as [|c s [IH0 IH1]].
  - split; [intros _; split; [exact I|discriminate]|intros _; exact I].
  - split; [|exact (fun H => proj1 (IH0 H))].
    intros Hs. cbn [replace_aux].
    destruct (starts_with [x; y] (c :: s)) eqn:E.
    + apply starts_with_two in E. destruct E as (-> & s' & ->).
      cbn [List.length Nat.sub app].
      split; [|intros d [= <-]; left; reflexivity].
      apply no_adj_cons; [intros d _; apply Hl|].
      apply IH1. cbn [tl]. apply (no_adj_tail _ y), (no_adj_tail _ x). exact Hs.
    + destruct (IH0 (no_adj_tail _ c s Hs)) as [Hno Hhd].
      split; [|intros d [= <-]; right; reflexivity].
      apply no_adj_cons; [|exact Hno].
      intros d Hd. destruct (Hhd d Hd) as [->|Hin]; [apply Hr|].
      destruct s as [|d' s]; [discriminate|]. injection Hin as ->.
      apply no_adj_head in Hs. apply andb_false_iff in Hs.
      destruct Hs as [Hs|Hs]; [exact Hs|].
      apply negb_false_iff in Hs. unfold pair_is in Hs.
      apply andb_true_iff in Hs. destruct Hs as [H1 H2].
      apply Ascii.eqb_eq in H1, H2. subst.
      rewrite starts_with_two_refl in E. discriminate.
Qed.

Lemma no_adj_impl (R R' : ascii -> ascii -> bool) (s : text) :
  (forall a b, R a b = false -> R' a b = false) -> no_adj R s -> no_adj R' s.
Proof.
  intros H. induction s as [|a s IH]; [auto|].
  destruct s as [|b s]; [auto|]. intros [H1 H2]. split; [apply H; exact H1|].
  apply IH. exact H2.
Qed.

Lemma no_adj_trivial (R : ascii -> ascii -> bool) (s : text) :
  (forall a b, R a b = false) -> no_adj R s.
Proof.
  intros H. induction s as [|a s IH]; [exact I|].
  destruct s as [|b s]; [exact I|]. split; [apply H|exact IH].
Qed.

(** After [replace] no occurrence of the pair is left. *)
Lemma replace_pair_removes (x y sp : ascii) (s : text) :
  sp <> x -> sp <> y ->
  no_adj (pair_is x y) (replace [x; y] [sp] s).
Proof.
  intros Hx Hy. unfold replace.
  apply (replace_pair_no_adj (pair_is x y) x y sp).
  - intros a. unfold pair_is. destruct (Ascii.eqb_spec sp y); [contradiction|].
    apply andb_false_r.
  - intros a. unfold pair_is. destruct (Ascii.eqb_spec sp x); [contradiction|].
    reflexivity.
  - apply no_adj_trivial. intros a b. destruct (pair_is x y a b); reflexivity.
Qed.

(** [replace] keeps a text free of [R]-neighbours when the inserted
    character is related to nothing. *)
Lemma replace_pair_keeps (R : ascii -> ascii -> bool) (x y sp : ascii) (s : text) :
  (forall a, R a sp = false) -> (forall a, R sp a = false) ->
  no_adj R s -> no_adj R (replace [x; y] [sp] s).
Proof.
  intros Hr Hl Hs. unfold replace.
  apply (replace_pair_no_adj R x y sp Hr Hl).
  apply (no_adj_impl R); [|exact Hs].
  intros a b ->. reflexivity.
Qed.

(** A text without the pair is left as it is. *)
Lemma replace_pair_id (x y : ascii) (new s : text) :
  no_adj (pair_is x y) s -> replace [x; y] new s = s.
Proof.
  unfold replace. induction s as [|c s IH]; [reflexivity|].
  intros Hs. cbn [replace_aux].
  destruct (starts_with [x; y] (c :: s)) eqn:E.
  - apply starts_with_two in E. destruct E as (-> & s' & ->).
    apply no_adj_head in Hs. unfold pair_is in Hs.
    rewrite !Ascii.eqb_refl in Hs. discriminate.
  - f_equal. apply IH. apply (no_adj_tail _ c). exact Hs.
Qed.

Lemma no_pair_not_contained (x y : ascii) (s : text) :
  no_adj (pair_is x y) s -> contains [x; y] s = false.
Proof.
  induction s as [|c s IH]; [reflexivity|].
  intros Hs. cbn [contains].
  rewrite (IH (no_adj_tail _ c s Hs)), orb_false_r.
  destruct (starts_with [x; y] (c :: s)) eqn:E; [|reflexivity].
  apply starts_with_two in E. destruct E as (-> & s' & ->).
  apply no_adj_head in Hs. unfold pair_is in Hs.
  rewrite !Ascii.eqb_refl in Hs. discriminate.
Qed.

(** [collapse_spaces] keeps a text free of [R]-neighbours when a space is
    related to nothing. *)
Lemma collapse_keeps (R : ascii -> ascii -> bool) :
  (forall a, R a " "%char = false) -> (forall a, R " "%char a = false) ->
  forall s, no_adj R s ->
    no_adj R (collapse_spaces s true)
    /\ no_adj R (collapse_spaces s false)
    /\ forall d, hd_error (collapse_spaces s false) = Some d ->
                 d = " "%char \/ hd_error s = Some d.
Proof.
  intros Hr Hl. induction s as [|c s IH]; intros Hs.
  - repeat split; try exact I. discriminate.
  - destruct (IH (no_adj_tail _ c s Hs)) as (Ht & Hf & Hhd).
    cbn [collapse_spaces]. destruct (is_space c).
    + split; [exact Ht|]. split; [|intros d [= <-]; left; reflexivity].
      apply no_adj_cons; [intros d _; apply Hl|exact Ht].
    + assert (Hc : no_adj R (c :: collapse_spaces s false)).
      { apply no_adj_cons; [|exact Hf].
        intros d Hd. destruct (Hhd d Hd) as [->|Hin]; [apply Hr|].
        destruct s as [|d' s]; [discriminate|]. injection Hin as ->.
        exact (no_adj_head R c d s Hs). }
      split; [exact Hc|]. split; [exact Hc|].
      intros d [= <-]. right. reflexivity.
Qed.

(** The whitespace of a collapsed text: single spaces. *)
Lemma collapse_only_spaces (s : text) :
  forall b, Forall (fun ch => is_space ch = true -> ch = " "%char)
                   (collapse_spaces s b).
Proof.
  induction s as [|c s IH]; intros b; cbn [collapse_spaces]; [constructor|].
  destruct (is_space c) eqn:E.
  - destruct b; [apply IH|]. constructor; [reflexivity|apply IH].
  - constructor; [rewrite E; discriminate|apply IH].
Qed.

Lemma collapse_no_runs (s : text) :
  no_adj both_space (collapse_spaces s true)
  /\ no_adj both_space (collapse_spaces s false)
  /\ forall d, hd_error (collapse_spaces s true) = Some d -> is_space d = false.
Proof.
  induction s as [|c s (Ht & Hf & Hhd)].
  - repeat split; try exact I. discriminate.
  - cbn [collapse_spaces]. destruct (is_space c) eqn:E.
    + split; [exact Ht|]. split; [|exact Hhd].
      apply no_adj_cons; [|exact Ht].
      intros d Hd. unfold both_space. rewrite (Hhd d Hd). apply andb_false_r.
    + assert (Hc : no_adj both_space (c :: collapse_spaces s false)).
      { apply no_adj_cons; [|exact Hf].
        intros d _. unfold both_space. rewrite E. reflexivity. }
      split; [exact Hc|]. split; [exact Hc|].
      intros d [= <-]. exact E.
Qed.

(** A text whose whitespace is single spaces is left as it is. *)
Lemma collapse_id (s : text) :
  Forall (fun ch => is_space ch = true -> ch = " "%char) s ->
  no_adj both_space s ->
  collapse_spaces s false = s
  /\ ((forall d, hd_error s = Some d -> is_space d = false) ->
      collapse_spaces s true = s).
Proof.
  induction s as [|c s IH]; intros Hall Hruns; [split; reflexivity|].
  inversion Hall as [|? ? Hc Hall']; subst.
  destruct (IH Hall' (no_adj_tail _ c s Hruns)) as [IHf IHt].
  cbn [collapse_spaces]. destruct (is_space c) eqn:E.
  - split.
    + rewrite (Hc eq_refl) at 1. f_equal. apply IHt.
      intros d Hd. destruct s as [|d' s]; [discriminate|]. injection Hd as ->.
      apply no_adj_head in Hruns. unfold both_space in Hruns.
      rewrite E in Hruns. exact Hruns.
    + intros Hhd. rewrite (Hhd c eq_refl) in E. discriminate.
  - split; [f_equal; exact IHf|intros _; f_equal; exact IHf].
Qed.

(** [lstrip] removes a prefix of whitespace. *)
Lemma lstrip_suffix (s : text) :
  exists w, s = w ++ lstrip s
            /\ forall d, hd_error (lstrip s) = Some d -> is_space d = false.
Proof.
  induction s as [|c s (w & Hw & Hhd)].
  - exists []. split; [reflexivity|discriminate].
  - cbn [lstrip]. destruct (is_space c) eqn:E.
    + exists (c :: w). split; [cbn; f_equal; exact Hw|exact Hhd].
    + exists []. split; [reflexivity|]. intros d [= <-]. exact E.
Qed.

Lemma lstrip_id (s : text) :
  (forall d, hd_error s = Some d -> is_space d = false) -> lstrip s = s.
Proof.
  destruct s as [|c s]; [reflexivity|]. intros H. cbn [lstrip].
  rewrite (H c eq_refl). reflexivity.
Qed.

(** [strip] cuts whitespace from both ends: what is left starts and ends
    with a character that is not whitespace. *)
Lemma strip_infix (s : text) :
  exists w1 w2,
    s = w1 ++ strip s ++ w2
    /\ (forall d, hd_error (strip s) = Some d -> is_space d = false)
    /\ (forall d, hd_error (rev (strip s)) = Some d -> is_space d = false).
Proof.
  unfold strip.
  destruct (lstrip_suffix s) as (w1 & H1 & Hh1).
  destruct (lstrip_suffix (rev (lstrip s))) as (w2 & H2 & Hh2).
  set (v := lstrip s) in *. set (u := lstrip (rev v)) in *.
  assert (Hv : v = rev u ++ rev w2).
  { rewrite <- rev_app_distr, <- H2, rev_involutive. reflexivity. }
  exists w1, (rev w2). split; [rewrite <- Hv; exact H1|]. split.
  - intros d Hd. apply Hh1. rewrite Hv.
    destruct (rev u) as [|d' r]; [discriminate|]. exact Hd.
  - rewrite rev_involutive. exact Hh2.
Qed.

Lemma strip_id (s : text) :
  (forall d, hd_error s = Some d -> is_space d = false) ->
  (forall d, hd_error (rev s) = Some d -> is_space d = false) ->
  strip s = s.
Proof.
  intros H1 H2. unfold strip.
  rewrite (lstrip_id s H1), (lstrip_id (rev s) H2). apply rev_involutive.
Qed.

Lemma Forall_infix {A} (P : A -> Prop) (w1 s w2 : list A) :
  Forall P (w1 ++ s ++ w2) -> Forall P s.
Proof.
  intros H. apply Forall_app in H. destruct H as [_ H].
  apply Forall_app in H. exact (proj1 H).
Qed.

Lemma no_adj_infix (R : ascii -> ascii -> bool) (w1 s w2 : text) :
  no_adj R (w1 ++ s ++ w2) -> no_adj R s.
Proof. intros H. apply no_adj_suffix in H. apply no_adj_prefix in H. exact H. Qed.

(** What a cleaned text looks like. *)
Lemma clean_text_shape (t : text) :
  let c := BaseSolver._clean_text t in
  no_adj (pair_is backslash backslash) c
  /\ no_adj (pair_is backslash ","%char) c
  /\ Forall (fun ch => is_space ch = true -> ch = " "%char) c
  /\ no_adj both_space c
  /\ (forall d, hd_error c = Some d -> is_space d = false)
  /\ (forall d, hd_error (rev c) = Some d -> is_space d = false).
Proof.
  unfold BaseSolver._clean_text.
  change (str "\\") with [backslash; backslash].
  change (str "\,") with [backslash; ","%char].
  change (str " ") with [" "%char].
  set (t1 := replace [backslash; backslash] [" "%char] t).
  set (t2 := replace [backslash; ","%char] [" "%char] t1).
  set (t3 := collapse_spaces t2 false).
  cbv zeta.
  assert (H1 : no_adj (pair_is backslash backslash) t1).
  { apply replace_pair_removes; discriminate. }
  assert (H2 : no_adj (pair_is backslash backslash) t2
               /\ no_adj (pair_is backslash ","%char) t2).
  { split.
    - apply replace_pair_keeps; [| |exact H1]; intros a; unfold pair_is;
        [apply andb_false_r|reflexivity].
    - apply replace_pair_removes; discriminate. }
  assert (H3 : no_adj (pair_is backslash backslash) t3
               /\ no_adj (pair_is backslash ","%char) t3).
  { destruct H2 as [Ha Hb]. split.
    - apply (collapse_keeps (pair_is backslash backslash)); [| |exact Ha];
        intros a; unfold pair_is; [apply andb_false_r|reflexivity].
    - apply (collapse_keeps (pair_is backslash ","%char)); [| |exact Hb];
        intros a; unfold pair_is; [apply andb_false_r|reflexivity]. }
  destruct (strip_infix t3) as (w1 & w2 & E & Hhd & Hlast).
  destruct H3 as [Ha Hb].
  split; [rewrite E in Ha; exact (no_adj_infix _ _ _ _ Ha)|].
  split; [rewrite E in Hb; exact (no_adj_infix _ _ _ _ Hb)|].
  split.
  { pose proof (collapse_only_spaces t2 false) as Hs. fold t3 in Hs.
    rewrite E in Hs. exact (Forall_infix _ _ _ _ Hs). }
  split.
  { pose proof (proj1 (proj2 (collapse_no_runs t2))) as Hs. fold t3 in Hs.
    rewrite E in Hs. exact (no_adj_infix _ _ _ _ Hs). }
  split; assumption.
Qed.

(** X20.  [_clean_text] is idempotent, and a cleaned text [c] is in normal
    form: [c.strip()], the whitespace substitution and the two [replace]
    calls each leave it unchanged; it contains neither two backslashes in a
    row nor a backslash followed by a comma, and its only whitespace
    characters are single spaces. *)
Theorem clean_text_normal_form (t : text) :
  let c := BaseSolver._clean_text t in
  BaseSolver._clean_text c = c
  /\ strip c = c
  /\ collapse_spaces c false = c
  /\ contains (str "\\") c = false
  /\ contains (str "\,") c = false
  /\ Forall (fun ch => is_space ch = true -> ch = " "%char) c.
Proof.
  intros c.
  destruct (clean_text_shape t) as (Hbb & Hbc & Hsp & Hruns & Hhd & Hlast).
  fold c in Hbb, Hbc, Hsp, Hruns, Hhd, Hlast.
  assert (Hstrip : strip c = c) by (apply strip_id; assumption).
  assert (Hcol : collapse_spaces c false = c)
    by (apply (proj1 (collapse_id c Hsp Hruns))).
  split.
  { unfold BaseSolver._clean_text at 1.
    change (str "\\") with [backslash; backslash].
    change (str "\,") with [backslash; ","%char].
    cbv zeta.
    rewrite (replace_pair_id backslash backslash _ c Hbb).
    rewrite (replace_pair_id backslash ","%char _ c Hbc).
    rewrite Hcol. exact Hstrip. }
  split; [exact Hstrip|]. split; [exact Hcol|].
  split; [exact (no_pair_not_contained backslash backslash c Hbb)|].
  split; [exact (no_pair_not_contained backslash ","%char c Hbc)|exact Hsp].
Qed.




(** ** [arithmetic_solver]: ratios *)

(** X22.  [ArithmeticSolver._handle_ratio] on at least two numbers, the
    first two finite and [num], [den] their integer parts: for [den = 0] it returns
    [None]; otherwise its loop ends and it returns [(a + b) % 1000] for the
    fraction [a / b] in lowest terms with [b > 0] that equals
    [num / den]. *)
Theorem ratio_in_lowest_terms (x y : Q) (rest : list pyfloat) :
  let num := trunc x in
  let den := trunc y in
  (den <> 0 ->
   exists a b,
     ArithmeticSolver._handle_ratio (Finite x :: Finite y :: rest) = Some (Some ((a + b) mod 1000))
     /\ 0 < b /\ Z.gcd a b = 1 /\ a * den = b * num)
  /\ (den = 0 -> ArithmeticSolver._handle_ratio (Finite x :: Finite y :: rest) = Some None).
Proof.
  intros num den. split.
  - intros Hden. unfold ArithmeticSolver._handle_ratio.
    cbn [int_ bind]. fold num. fold den.
    destruct (Z.eqb_spec den 0); [contradiction|].
    destruct (gcd_loop_sign (S (Z.abs_nat den)) num den Hden ltac:(lia))
      as (g & -> & Hg).
    set (G := Z.gcd num den) in *.
    assert (HG : 0 < G).
    { pose proof (Z.gcd_nonneg num den).
      assert (G <> 0) by (intros E; apply Z.gcd_eq_0_r in E; contradiction).
      lia. }
    assert (Hg0 : g <> 0) by (subst g; destruct (Z.sgn_spec den) as [[? ->]|[[? ->]|[? ->]]]; lia).
    destruct (Z.gcd_divide_l num den) as [a' Ha'].
    destruct (Z.gcd_divide_r num den) as [b' Hb'].
    fold G in Ha', Hb'.
    assert (Hnum : num = (Z.sgn den * a') * g).
    { subst g. destruct (Z.sgn_spec den) as [[? ->]|[[? ->]|[? ->]]]; lia. }
    assert (Hdn : den = (Z.sgn den * b') * g).
    { subst g. destruct (Z.sgn_spec den) as [[? ->]|[[? ->]|[? ->]]]; lia. }
    exists (Z.sgn den * a'), (Z.sgn den * b').
    unfold MathHelpers.floordiv. destruct (Z.eqb_spec g 0); [contradiction|].
    cbn [bind].
    assert (Hq1 : num / g = Z.sgn den * a').
    { symmetry. apply Z.div_unique_exact; [exact Hg0|].
      rewrite Z.mul_comm. exact Hnum. }
    assert (Hq2 : den / g = Z.sgn den * b').
    { symmetry. apply Z.div_unique_exact; [exact Hg0|].
      rewrite Z.mul_comm. exact Hdn. }
    rewrite Hq1, Hq2.
    cbn [mod_ Z.eqb bind try_except].
    split; [reflexivity|].
    assert (Hb : 0 < Z.sgn den * b').
    { destruct (Z.sgn_spec den) as [[? E]|[[? E]|[? E]]]; rewrite E; nia. }
    split; [exact Hb|]. split.
    + pose proof (Z.gcd_mul_mono_r (Z.sgn den * a') (Z.sgn den * b') g) as E.
      rewrite <- Hnum, <- Hdn in E. fold G in E.
      assert (Z.abs g = G).
      { rewrite Hg. destruct (Z.sgn_spec den) as [[? ->]|[[? ->]|[? ->]]]; lia. }
      nia.
    + transitivity (Z.sgn den * a' * (Z.sgn den * b' * g)); [f_equal; exact Hdn|].
      transitivity (Z.sgn den * b' * (Z.sgn den * a' * g)); [ring|].
      f_equal. symmetry. exact Hnum.
  - intros Hden. unfold ArithmeticSolver._handle_ratio.
    cbn [int_ bind]. fold den. rewrite Hden. reflexivity.
Qed.

Lemma ratio_in_lowest_terms_witness :
  exists a b,
    ArithmeticSolver._handle_ratio [Finite (12 # 1); Finite (-18 # 1)] = Some (Some ((a + b) mod 1000))
    /\ 0 < b /\ Z.gcd a b = 1 /\ a * trunc (-18 # 1) = b * trunc (12 # 1).
Proof.
  apply (proj1 (ratio_in_lowest_terms (12 # 1) (-18 # 1) [])).
  vm_compute. discriminate.
Defined.

(** ** [combinatorics_solver]: partition and permutation problems *)

Import Combinatorics.


Lemma partitions_upto_neg (k : nat) (n : Z) : n < 0 -> partitions_upto k n = 0.
Proof.
  intros H. destruct k as [|k]; cbn [partitions_upto].
  - destruct (Z.eqb_spec n 0); [lia|reflexivity].
  - rewrite range_nil; [reflexivity|].
    assert (n / Z.of_nat (S k) < 0) by (apply Z.div_lt_upper_bound; lia). lia.
Qed.
















(** The two texts above, evaluated: the literal 2.0000000000000000001 is
    read as 2.0 and gives the two partitions of 2; 9007199254740993 is read
    as the double 9007199254740992.0 and gives 992. *)
Lemma rounded_literals_evaluated :
  solve (fun _ => true) (str "partition 2.0000000000000000001") = 2
  /\ solve (fun _ => true) (str "permutation 9007199254740993 1") = 992
  /\ parse_float (str "9007199254740993") = Finite 9007199254740992
  /\ parse_float (str "2.0000000000000000001") = Finite 2.
Proof. vm_compute. repeat split. Qed.

Lemma partitions_first_values :
  map partitions [0; 1; 2; 3; 4; 5; 6; 7; 10; 20] = [1; 1; 2; 3; 5; 7; 11; 15; 42; 627].
Proof. vm_compute. reflexivity. Qed.
